(** * Tunnelblick CLI and VPN monitor: a shallow embedding

    The development follows [tunnelblick_vpn.py] and [vpn_monitor.py].

    - Python [str] values are lists of code points; the model keeps the
      code points below 256 ([ascii]), which covers every literal the two
      files use, and gives [str.strip] and [str.isdigit] the character
      classes CPython has on that range.
    - Everything the scripts do to the outside world (osascript, ping,
      stdin, the keyring, sleeping, signal delivery) goes through one
      process state that carries the environment's answers and a trace of
      the calls made.
    - [print] calls only write to the console and are left out. *)

From Stdlib Require Import ZArith Ascii String Lia.
From stdpp Require Import base list strings gmap.

Local Open Scope Z_scope.

(** ** Python strings *)

Module PyStr.

Definition str := list ascii.

Definition lit (s : string) : str := list_ascii_of_string s.

Definition len (s : str) : Z := Z.of_nat (length s).

(** [s.startswith(p)] *)
Fixpoint startswith (s p : str) {struct p} : bool :=
  match p, s with
  | [], _ => true
  | _ :: _, [] => false
  | a :: p', b :: s' => bool_decide (a = b) && startswith s' p'
  end.

(** [sub in s] *)
Fixpoint str_in (sub s : str) : bool :=
  startswith s sub ||
  match s with
  | [] => false
  | _ :: s' => str_in sub s'
  end.

(** Index of the first suffix of [s] that starts with [sub]; [i] is the
    index of the head of [s] in the string being searched. *)
Fixpoint find_aux (s sub : str) (i : nat) : option nat :=
  if startswith s sub then Some i
  else match s with
       | [] => None
       | _ :: s' => find_aux s' sub (S i)
       end.

(** Clamping of a slice or start index, as CPython does it. *)
Definition clamp (s : str) (i : Z) : nat :=
  Z.to_nat (if i <? 0 then Z.max 0 (len s + i) else Z.min i (len s)).

(** [s.find(sub, start)] *)
Definition find (s sub : str) (start : Z) : Z :=
  if len s <? start then -1
  else match find_aux (drop (clamp s start) s) sub (clamp s start) with
       | Some i => Z.of_nat i
       | None => -1
       end.

(** [s[a:b]] *)
Definition slice (s : str) (a b : Z) : str :=
  take (clamp s b - clamp s a)%nat (drop (clamp s a) s).

(** [c.isspace()] for a code point below 256. *)
Definition isspace (c : ascii) : bool :=
  let n := nat_of_ascii c in
  ((9 <=? n) && (n <=? 13) || (28 <=? n) && (n <=? 31) ||
   (n =? 32) || (n =? 133) || (n =? 160))%nat.

Fixpoint lstrip (s : str) : str :=
  match s with
  | [] => []
  | c :: s' => if isspace c then lstrip s' else s
  end.

Definition rstrip (s : str) : str := reverse (lstrip (reverse s)).

(** [s.strip()] *)
Definition strip (s : str) : str := rstrip (lstrip s).

(** [c.isdigit()] for a code point below 256: the decimal digits and the
    superscripts one, two and three. *)
Definition isdigit_char (c : ascii) : bool :=
  let n := nat_of_ascii c in
  ((48 <=? n) && (n <=? 57) || (n =? 178) || (n =? 179) || (n =? 185))%nat.

(** [s.isdigit()] *)
Definition isdigit (s : str) : bool :=
  match s with
  | [] => false
  | _ => forallb isdigit_char s
  end.

(** [s.split(sep)] for a non-empty [sep]: the chunks between the leftmost
    non-overlapping occurrences of [sep]. [skip] counts the characters of
    a separator that was matched and is still being passed over. *)
Fixpoint split_aux (sep s : str) (skip : nat) : list str :=
  match s with
  | [] => [[]]
  | c :: s' =>
      match skip with
      | S k => split_aux sep s' k
      | O =>
          if startswith s sep then [] :: split_aux sep s' (length sep - 1)
          else match split_aux sep s' 0 with
               | chunk :: rest => (c :: chunk) :: rest
               | [] => [[c]]
               end
      end
  end.

Definition split (s sep : str) : list str := split_aux sep s 0.

(** [sep.join(chunks)] *)
Fixpoint join (sep : str) (chunks : list str) : str :=
  match chunks with
  | [] => []
  | [c] => c
  | c :: rest => c ++ sep ++ join sep rest
  end.

End PyStr.

Import PyStr.

(** ** Status parser *)

Definition boundary : str := lit "class:configuration".

(** The loop over [configs] in [_get_vpn_status]. *)
Fixpoint scan_blocks (config_name : str) (configs : list str) : str :=
  match configs with
  | [] => lit "NOT_FOUND"
  | config_block :: rest =>
      if str_in (lit "name:" ++ config_name) config_block then
        let state_start := find config_block (lit "state:") 0 in
        if negb (state_start =? -1) then
          let state_end := find config_block (lit ",") state_start in
          let state_end :=
            if state_end =? -1 then len config_block else state_end in
          strip (slice config_block (state_start + 6) state_end)
        else scan_blocks config_name rest
      else scan_blocks config_name rest
  end.

(** [_get_vpn_status] from the point where the bridge has answered
    [result]. *)
Definition parse_status (result config_name : str) : str :=
  match result with
  | [] => lit "UNKNOWN"
  | _ => scan_blocks config_name (split result boundary)
  end.

(** ** Exceptions, results and the process state *)

(** The exceptions the scripts can meet. Everything except
    [KeyboardInterrupt] is a subclass of [Exception]; [SystemExit] and the
    other exceptions outside [Exception] are not modelled. *)
Inductive exn :=
| KeyboardInterrupt
| EOFError
| ValueError
| OtherException (name : str).

Definition is_Exception (e : exn) : bool :=
  match e with
  | KeyboardInterrupt => false
  | _ => true
  end.

(** How a [subprocess.run(..., check=True)] call ends: exit status zero
    with its standard output, a non-zero exit status
    ([CalledProcessError], with the standard error text), or some other
    exception. *)
Inductive proc :=
| Exit0 (stdout : str)
| ExitNonzero (stderr : str)
| Fails (e : exn).

(** The scripts handed to [osascript]. *)
Inductive script :=
| GetNames
| GetProperties
| Connect (config_name : str)
| EnterPassword (password : str)
| Disconnect (config_name : str).

(** Calls that reach the outside world, in the order they are made. *)
Inductive event :=
| EvOsascript (s : script)
| EvSleep (seconds : Z)
| EvPing
| EvInput
| EvKeyringSet (service username password : str)
| EvKeyringGet (service username : str).

(** What the environment answers. Every blocking call takes one tick of
    [calls]; the answers are indexed by the tick of the call. *)
Record Env := {
  osascript : nat -> proc;
  ping : nat -> proc;
  keyring_fault : nat -> option exn;
  (** a SIGINT or SIGTERM is delivered during the call at this tick *)
  signals : nat -> bool
}.

Record State := mkState {
  (** [VPNMonitor.running] and [VPNMonitor.reconnect_count] *)
  running : bool;
  reconnect_count : Z;
  (** lines still to be read from standard input *)
  stdin : list str;
  (** the keychain: (service, username) to password *)
  keyring : gmap (str * str) str;
  calls : nat;
  trace : list event
}.

Inductive result (A : Type) :=
| Ok (a : A)
| Raise (e : exn).
Arguments Ok {A} a.
Arguments Raise {A} e.

Definition M (A : Type) : Type := State -> result A * State.

Definition ret {A} (a : A) : M A := fun st => (Ok a, st).

Definition raise {A} (e : exn) : M A := fun st => (Raise e, st).

Definition bind {A B} (m : M A) (k : A -> M B) : M B :=
  fun st =>
    match m st with
    | (Ok a, st') => k a st'
    | (Raise e, st') => (Raise e, st')
    end.

Notation "x <- m ;; k" := (bind m (fun x => k))
  (at level 100, m at next level, right associativity).
Notation "m ;;; k" := (bind m (fun _ => k))
  (at level 100, right associativity).

(** [try: body except Exception: handler] *)
Definition except_Exception {A} (body handler : M A) : M A :=
  fun st =>
    match body st with
    | (Raise e, st') => if is_Exception e then handler st' else (Raise e, st')
    | r => r
    end.

Definition set_running (b : bool) : M unit :=
  fun st => (Ok tt, mkState b (reconnect_count st) (stdin st) (keyring st)
                            (calls st) (trace st)).

Definition set_reconnect_count (n : Z) : M unit :=
  fun st => (Ok tt, mkState (running st) n (stdin st) (keyring st)
                            (calls st) (trace st)).

Definition set_stdin (l : list str) : M unit :=
  fun st => (Ok tt, mkState (running st) (reconnect_count st) l (keyring st)
                            (calls st) (trace st)).

Definition set_keyring (k : gmap (str * str) str) : M unit :=
  fun st => (Ok tt, mkState (running st) (reconnect_count st) (stdin st) k
                            (calls st) (trace st)).

Definition get {A} (f : State -> A) : M A := fun st => (Ok (f st), st).

(** [VPNMonitor._signal_handler] *)
Definition _signal_handler : M unit := set_running false.

Section Process.

Variable env : Env.

(** A blocking call: it is logged and takes one tick, and a signal
    delivered while it blocks runs the handler before the call returns.
    The result is the tick at which the call was made. *)
Definition blocking (e : event) : M nat :=
  fun st =>
    let n := calls st in
    let st1 := mkState (running st) (reconnect_count st) (stdin st)
                       (keyring st) (S n) (trace st ++ [e]) in
    if signals env n then (_signal_handler ;;; ret n) st1
    else (Ok n, st1).

(** The longest sleep, in seconds, that the interpreter's 64-bit count of
    nanoseconds holds. *)
Definition sleep_max : Z := 9223372036.

(** [time.sleep(seconds)] for an [int]: the length is converted to
    nanoseconds first, which raises [OverflowError] when it does not fit,
    and a negative length is refused next. *)
Definition sleep (seconds : Z) : M unit :=
  if (seconds <? - sleep_max) || (sleep_max <? seconds) then
    raise (OtherException (lit "OverflowError"))
  else if seconds <? 0 then raise ValueError
  else blocking (EvSleep seconds) ;;; ret tt.

(** [input(prompt)] when standard input holds [lines]. *)
Definition input_from (lines : list str) : M str :=
  blocking EvInput ;;;
  match lines with
  | [] => raise EOFError
  | line :: rest => set_stdin rest ;;; ret line
  end.

(** [keyring.set_password] *)
Definition keyring_set_password (service username password : str) : M unit :=
  n <- blocking (EvKeyringSet service username password) ;;
  match keyring_fault env n with
  | Some e => raise e
  | None =>
      k <- get keyring ;;
      set_keyring (<[(service, username) := password]> k)
  end.

(** [keyring.get_password] *)
Definition keyring_get_password (service username : str) : M (option str) :=
  n <- blocking (EvKeyringGet service username) ;;
  match keyring_fault env n with
  | Some e => raise e
  | None => k <- get keyring ;; ret (k !! (service, username))
  end.

(** *** tunnelblick_vpn.py

    [_run_applescript], [_get_vpn_status] and [_connect_vpn] are repeated
    in [vpn_monitor.py], where they differ only in what they print. *)

Definition _run_applescript (s : script) : M str :=
  n <- blocking (EvOsascript s) ;;
  match osascript env n with
  | Exit0 stdout => ret (strip stdout)
  | ExitNonzero _ => ret []
  | Fails e => raise e
  end.

Definition _get_vpn_status (config_name : str) : M str :=
  result <- _run_applescript GetProperties ;;
  ret (parse_status result config_name).

Definition CONNECTED : str := lit "CONNECTED".
Definition EXITING : str := lit "EXITING".
Definition DISCONNECTED : str := lit "DISCONNECTED".

(** A status that ends a wait for disconnection. *)
Definition is_down (status : str) : bool :=
  str_in EXITING status || str_in DISCONNECTED status.

(** The [for i in range(n)] loop that ends [_connect_vpn]. *)
Fixpoint connect_wait (config_name : str) (n : nat) : M bool :=
  match n with
  | O => ret false
  | S n' =>
      status <- _get_vpn_status config_name ;;
      if bool_decide (status = CONNECTED) then ret true
      else if is_down status then ret false
      else sleep 1 ;;; connect_wait config_name n'
  end.

Definition _connect_vpn (config_name password : str) : M bool :=
  _run_applescript (Connect config_name) ;;;
  sleep 2 ;;;
  _run_applescript (EnterPassword password) ;;;
  connect_wait config_name 30.

(** The [for i in range(n)] loop that ends [_disconnect_vpn]. *)
Fixpoint disconnect_wait (config_name : str) (n : nat) : M bool :=
  match n with
  | O => ret false
  | S n' =>
      status <- _get_vpn_status config_name ;;
      if is_down status then ret true
      else sleep 1 ;;; disconnect_wait config_name n'
  end.

Definition _disconnect_vpn (config_name : str) : M bool :=
  _run_applescript (Disconnect config_name) ;;;
  disconnect_wait config_name 10.

(** *** vpn_monitor.py *)

Definition service_name (config_name : str) : str :=
  lit "tunnelblick_vpn_" ++ config_name.

Definition _store_credentials (config_name prefix : str) : M unit :=
  keyring_set_password (service_name config_name) (lit "prefix") prefix.

Definition _get_stored_credentials (config_name : str) : M (option str) :=
  except_Exception
    (keyring_get_password (service_name config_name) (lit "prefix"))
    (ret None).

Definition _check_internet_connectivity : M bool :=
  n <- blocking EvPing ;;
  match ping env n with
  | Exit0 _ => ret true
  | ExitNonzero _ => ret false
  | Fails e => raise e
  end.

(** The immutable fields of a [VPNMonitor]. *)
Record VPNMonitor := {
  config_name : str;
  check_interval : Z
}.

(** The [while True] loop of [_get_yubikey_token], by recursion on the
    lines standard input still holds. With no line left [input_from]
    raises and the rest of the body is not reached. Standard input is a
    finite list of lines followed by end of input: a user who types
    rejected lines without end, which keeps the source in its loop, is not
    modelled. *)
Fixpoint token_loop (lines : list str) : M str :=
  line <- input_from lines ;;
  let token := strip line in
  if isdigit token && (len token =? 6) then ret token
  else match lines with
       | [] => raise EOFError
       | _ :: rest => token_loop rest
       end.

Definition _get_yubikey_token : M str :=
  fun st => token_loop (stdin st) st.

Definition test_connection (self : VPNMonitor) : M bool :=
  prefix <- _get_stored_credentials (config_name self) ;;
  match prefix with
  | None | Some [] => ret false
  | Some p =>
      token <- _get_yubikey_token ;;
      _connect_vpn (config_name self) (p ++ token)
  end.

(** The body of the [try] up to the comment "Wait for next check". *)
Definition cycle_work (self : VPNMonitor) (prefix : str) : M unit :=
  status <- _get_vpn_status (config_name self) ;;
  if bool_decide (status = CONNECTED) then set_reconnect_count 0
  else
    online <- _check_internet_connectivity ;;
    if online then
      token <- _get_yubikey_token ;;
      ok <- _connect_vpn (config_name self) (prefix ++ token) ;;
      if ok then
        n <- get reconnect_count ;;
        set_reconnect_count (n + 1)
      else ret tt
    else ret tt.

(** [if self.running: time.sleep(self.check_interval)] *)
Definition cycle_wait (self : VPNMonitor) : M unit :=
  r <- get running ;;
  if r then sleep (check_interval self) else ret tt.

Definition cycle_body (self : VPNMonitor) (prefix : str) : M unit :=
  cycle_work self prefix ;;; cycle_wait self.

Inductive loop_ctl := Continue | Break.

(** One pass through the [try] statement inside the [while]. *)
Definition cycle (self : VPNMonitor) (prefix : str) : M loop_ctl :=
  fun st =>
    match cycle_body self prefix st with
    | (Ok _, st') => (Ok Continue, st')
    | (Raise KeyboardInterrupt, st') => (Ok Break, st')
    | (Raise e, st') =>
        if is_Exception e then (sleep 5 ;;; ret Continue) st'
        else (Raise e, st')
    end.

(** [while self.running: ...]; [None] when [fuel] cycles were not enough
    to see the loop end. *)
Fixpoint monitor_loop (self : VPNMonitor) (prefix : str) (fuel : nat)
  : State -> option (result unit * State) :=
  fun st =>
    if running st then
      match fuel with
      | O => None
      | S fuel' =>
          match cycle self prefix st with
          | (Ok Continue, st') => monitor_loop self prefix fuel' st'
          | (Ok Break, st') => Some (Ok tt, st')
          | (Raise e, st') => Some (Raise e, st')
          end
      end
    else Some (Ok tt, st).

Definition start_monitoring (self : VPNMonitor) (fuel : nat)
  : State -> option (result unit * State) :=
  fun st =>
    match _get_stored_credentials (config_name self) st with
    | (Raise e, st') => Some (Raise e, st')
    | (Ok prefix, st') =>
        match prefix with
        | None | Some [] => Some (Ok tt, st')
        | Some p =>
            match set_running true st' with
            | (_, st'') => monitor_loop self p fuel st''
            end
        end
    end.

End Process.

(** [VPNMonitor.__init__]: the state a monitor process starts in, with
    the lines standard input will deliver and the keychain as it is. *)
Definition init_state (lines : list str) (chain : gmap (str * str) str)
  : State :=
  mkState false 0 lines chain 0 [].

(** ** The rest of the two scripts

    The front ends return nothing and report by printing; their models
    return what the last [print] tells the user. [getpass.getpass] reads
    the next line the user types, as [input] does but without echo: the
    model keeps one stream of typed lines for both. *)

(** [s.replace(old, new)] for a non-empty [old]. *)
Definition replace (s old new : str) : str := join new (split s old).

Fixpoint lstrip_chars (chars s : str) : str :=
  match s with
  | [] => []
  | c :: s' => if bool_decide (c ∈ chars) then lstrip_chars chars s' else s
  end.

(** [s.strip(chars)] *)
Definition strip_chars (chars s : str) : str :=
  reverse (lstrip_chars chars (reverse (lstrip_chars chars s))).

(** The double quote character. *)
Definition dquote : ascii := ascii_of_nat 34.

(** The list that [_get_vpn_configurations] makes of a non-empty answer
    of the bridge. *)
Definition parse_configurations (result : str) : list str :=
  let configs :=
    split (replace (replace result (lit "{") []) (lit "}") []) (lit ", ") in
  map (strip_chars [dquote])
      (List.filter (fun config => negb (bool_decide (strip config = [])))
                   configs).

(** What [connect_vpn] and [disconnect_vpn] print last. *)
Inductive connect_report :=
| AlreadyConnected
| EmptyPassword
| ConnectSucceeded
| ConnectFailed.

Inductive disconnect_report :=
| AlreadyDisconnected
| DisconnectSucceeded
| DisconnectFailed.

Section FrontEnds.

Variable env : Env.

(** [getpass.getpass(prompt)] *)
Definition getpass : M str := fun st => input_from env (stdin st) st.

Definition _get_vpn_configurations : M (list str) :=
  result <- _run_applescript env GetNames ;;
  match result with
  | [] => ret []
  | _ => ret (parse_configurations result)
  end.

(** The [for config in configs] loop of [list_configurations]; the result
    is the lines it prints, as (name, status). *)
Fixpoint list_statuses (configs : list str) : M (list (str * str)) :=
  match configs with
  | [] => ret []
  | config :: rest =>
      status <- _get_vpn_status env config ;;
      lines <- list_statuses rest ;;
      ret ((config, status) :: lines)
  end.

Definition list_configurations : M (list (str * str)) :=
  configs <- _get_vpn_configurations ;;
  list_statuses configs.

Definition connect_vpn (config_name : str) : M connect_report :=
  current_status <- _get_vpn_status env config_name ;;
  if bool_decide (current_status = CONNECTED) then ret AlreadyConnected
  else
    full_password <- getpass ;;
    match full_password with
    | [] => ret EmptyPassword
    | _ =>
        ok <- _connect_vpn env config_name full_password ;;
        ret (if ok then ConnectSucceeded else ConnectFailed)
    end.

Definition disconnect_vpn (config_name : str) : M disconnect_report :=
  current_status <- _get_vpn_status env config_name ;;
  if (str_in DISCONNECTED current_status || str_in EXITING current_status)%bool
  then ret AlreadyDisconnected
  else
    ok <- _disconnect_vpn env config_name ;;
    ret (if ok then DisconnectSucceeded else DisconnectFailed).

Definition setup_credentials (self : VPNMonitor) : M bool :=
  prefix <- getpass ;;
  match prefix with
  | [] => ret false
  | _ => _store_credentials env (config_name self) prefix ;;; ret true
  end.

End FrontEnds.

(** ** Vocabulary of the statements *)

(** *** Status parser *)

(** A block the loop passes over: it lacks [name:X], or it has no
    [state:] field. *)
Definition skipped (X b : str) : Prop :=
  str_in (lit "name:" ++ X) b = false \/ find b (lit "state:") 0 = -1.

(** The value of the first [key:] field of a record chunk, delimited the
    way the parser delimits [state:]. It names what a record "has"; the
    parser itself does not use it. *)
Definition field (key c : str) : option str :=
  let start := find c (key ++ lit ":") 0 in
  if start =? -1 then None
  else
    let stop := find c (lit ",") start in
    let stop := if stop =? -1 then len c else stop in
    Some (strip (slice c (start + len key + 1) stop)).

Definition two_configs : str :=
  lit "autoconnect:NO, state:CONNECTED, bytesOut:0, name:vpn2, class:configuration, bytesIn:0, autoconnect:NO, state:EXITING, bytesOut:0, name:vpn, class:configuration, bytesIn:0".

Definition one_config : str :=
  lit "autoconnect:NO, state:CONNECTED, bytesOut:0, name:home-vpn2, class:configuration, bytesIn:0".

(** *** State changes *)

(** The state right after a blocking call. *)
Definition after_call (env : Env) (e : event) (st : State) : State :=
  (blocking env e st).2.

(** [m] moves every state to an [R]-related one, whatever it returns. *)
Definition keeps {A} (R : relation State) (m : M A) : Prop :=
  forall st, R st (m st).2.

(** The counter is where it was. *)
Definition same_count : relation State :=
  fun st st' => reconnect_count st' = reconnect_count st.

(** Time has moved on, nothing has set the running flag, and a signal
    delivered in between has cleared it. *)
Definition advances (env : Env) : relation State :=
  fun st st' =>
    (calls st <= calls st')%nat /\
    (running st' = true -> running st = true) /\
    (forall n, (calls st <= n < calls st')%nat ->
               signals env n = true -> running st' = false).

(** *** Polling *)

(** What [_run_applescript] makes of an answer that is not an exception. *)
Definition bridge_text (p : proc) : str :=
  match p with
  | Exit0 stdout => strip stdout
  | _ => []
  end.

(** The status the poller returns when it is called at tick [t]. *)
Definition status_at (env : Env) (cfg : str) (t : nat) : str :=
  parse_status (bridge_text (osascript env t)) cfg.

(** Every osascript call ends with an exit status: the poller always
    returns a status. *)
Definition bridge_answers (env : Env) : Prop :=
  forall t e, osascript env t <> Fails e.

Definition poll : event := EvOsascript GetProperties.

(** [k] polls that did not end the wait, each followed by its one-second
    sleep. *)
Fixpoint waits (k : nat) : list event :=
  match k with
  | O => []
  | S k' => poll :: EvSleep 1 :: waits k'
  end.

(** Poll [i] is the first one whose status ends the wait. *)
Definition first_terminal (terminal : str -> bool) (status : nat -> str)
    (i : nat) : Prop :=
  terminal (status i) = true /\
  forall j, (j < i)%nat -> terminal (status j) = false.

Definition connect_terminal (status : str) : bool :=
  bool_decide (status = CONNECTED) || is_down status.

(** Where a wait of at most [n] polls stops, and what it has done by
    then. *)
Definition wait_outcome (terminal : str -> bool) (verdict : str -> bool)
    (timeout : bool) (status : nat -> str) (n : nat) (st : State)
    (r : result bool * State) : Prop :=
  (exists i, (i < n)%nat /\ first_terminal terminal status i /\
             r.1 = Ok (verdict (status i)) /\
             trace r.2 = trace st ++ waits i ++ [poll] /\
             calls r.2 = (calls st + 2 * i + 1)%nat)
  \/ ((forall i, (i < n)%nat -> terminal (status i) = false) /\
      r.1 = Ok timeout /\
      trace r.2 = trace st ++ waits n /\
      calls r.2 = (calls st + 2 * n)%nat).

(** The status that poll [i] of a [_connect_vpn] started in [st] gets:
    the connect command, the two-second sleep and the credential entry
    take three ticks, and every poll but the last is followed by a
    one-second sleep. *)
Definition connect_polls (env : Env) (cfg : str) (st : State) (i : nat) : str :=
  status_at env cfg (calls st + 3 + 2 * i).

Definition connect_prelude (cfg password : str) : list event :=
  [EvOsascript (Connect cfg); EvSleep 2; EvOsascript (EnterPassword password)].

(** The status that poll [i] of a [_disconnect_vpn] started in [st] gets. *)
Definition disconnect_polls (env : Env) (cfg : str) (st : State) (i : nat)
  : str :=
  status_at env cfg (calls st + 1 + 2 * i).

(** *** Token prompt *)

(** The test [_get_yubikey_token] applies to a line it has read. *)
Definition accepted (line : str) : bool :=
  isdigit (strip line) && (len (strip line) =? 6).

Definition rejected (line : str) : Prop := accepted line = false.

(** *** Monitor cycle *)

(** The poll of the cycle that starts in [st] returns [CONNECTED]. *)
Definition polled_connected (env : Env) (self : VPNMonitor) (st : State)
  : Prop :=
  exists st1, _get_vpn_status env (config_name self) st = (Ok CONNECTED, st1).

(** The cycle that starts in [st] makes its reconnect attempt and
    [_connect_vpn] returns [True]. *)
Definition reconnected (env : Env) (self : VPNMonitor) (prefix : str)
    (st : State) : Prop :=
  exists status st1 st2 token st3 st4,
    _get_vpn_status env (config_name self) st = (Ok status, st1) /\
    status <> CONNECTED /\
    _check_internet_connectivity env st1 = (Ok true, st2) /\
    _get_yubikey_token env st2 = (Ok token, st3) /\
    _connect_vpn env (config_name self) (prefix ++ token) st3 = (Ok true, st4).

(** What [cycle_work] does once the poll has returned [status]. *)
Definition after_poll (env : Env) (self : VPNMonitor) (prefix status : str)
  : M unit :=
  if bool_decide (status = CONNECTED) then set_reconnect_count 0
  else
    online <- _check_internet_connectivity env ;;
    if online then
      token <- _get_yubikey_token env ;;
      ok <- _connect_vpn env (config_name self) (prefix ++ token) ;;
      if ok then
        n <- get reconnect_count ;;
        set_reconnect_count (n + 1)
      else ret tt
    else ret tt.

(** What the [while] statement does with the outcome of a cycle when
    [fuel] more cycles may follow. *)
Definition loop_after (env : Env) (self : VPNMonitor) (prefix : str)
    (fuel : nat) (r : result loop_ctl * State)
  : option (result unit * State) :=
  match r with
  | (Ok Continue, st') => monitor_loop env self prefix fuel st'
  | (Ok Break, st') => Some (Ok tt, st')
  | (Raise e, st') => Some (Raise e, st')
  end.

(** The trace has grown, and nothing was taken from it. *)
Definition grows : relation State :=
  fun st st' => trace st `prefix_of` trace st'.

(** Time has moved on, and the running flag is where it was unless a
    signal was delivered in between. *)
Definition steady (env : Env) : relation State :=
  fun st st' =>
    (calls st <= calls st')%nat /\
    ((forall n, (calls st <= n < calls st')%nat -> signals env n = false) ->
     running st' = running st).

(** Every exception that [m] raises satisfies [P]. *)
Definition raises_only {A} (P : exn -> Prop) (m : M A) : Prop :=
  forall st e st', m st = (Raise e, st') -> P e.

(** No call to the bridge or to [ping] is cut short by a
    [KeyboardInterrupt]. *)
Definition uninterrupted (env : Env) : Prop :=
  forall t, osascript env t <> Fails KeyboardInterrupt /\
            ping env t <> Fails KeyboardInterrupt.

(** *** Keychain *)

(** The keychain entry that holds the prefix of a configuration. *)
Definition prefix_key (cfg : str) : str * str :=
  (service_name cfg, lit "prefix").

(** *** A sample run *)

Definition exiting_blob : str :=
  lit "autoconnect:NO, state:EXITING, bytesOut:0, name:vpn, class:configuration, bytesIn:0".

Definition get_config_blob : str :=
  lit "autoconnect:NO, state:GET_CONFIG, bytesOut:0, name:vpn, class:configuration, bytesIn:0".

Definition connected_blob : str :=
  lit "autoconnect:NO, state:CONNECTED, bytesOut:0, name:vpn, class:configuration, bytesIn:0".

Definition sample_osascript (t : nat) : proc :=
  match t with
  | 0%nat | 13%nat => Exit0 exiting_blob
  | 7%nat => Exit0 get_config_blob
  | 9%nat => Exit0 connected_blob
  | _ => Exit0 []
  end.

(** The bridge answers as above, the network is reachable, the keychain
    works and no signal arrives. *)
Definition sample_env : Env :=
  {| osascript := sample_osascript;
     ping := fun _ => Exit0 [];
     keyring_fault := fun _ => None;
     signals := fun _ => false |}.

(** As [sample_env], with a signal delivered during the first call. *)
Definition signal_env : Env :=
  {| osascript := sample_osascript;
     ping := fun _ => Exit0 [];
     keyring_fault := fun _ => None;
     signals := fun t => bool_decide (t = 0%nat) |}.

(** As [sample_env], with a signal delivered during the call at tick 4. *)
Definition late_signal_env : Env :=
  {| osascript := sample_osascript;
     ping := fun _ => Exit0 [];
     keyring_fault := fun _ => None;
     signals := fun t => bool_decide (t = 4%nat) |}.

(** As [sample_env], with a keychain that fails on every call. *)
Definition locked_env : Env :=
  {| osascript := sample_osascript;
     ping := fun _ => Exit0 [];
     keyring_fault := fun _ => Some (OtherException (lit "KeyringLocked"));
     signals := fun _ => false |}.

Definition sample_monitor : VPNMonitor :=
  {| config_name := lit "vpn"; check_interval := 30 |}.

(** A monitor in its loop at tick [t], with [lines] on standard input. *)
Definition looping (lines : list str) (t : nat) : State :=
  mkState true 0 lines ∅ t [].

(** ** Vocabulary of the further statements *)

(** *** Configuration names *)

(** A piece that the list comprehension keeps. *)
Definition nonblank (p : str) : bool := negb (bool_decide (strip p = [])).

(** A piece that the brace removal and the split leave whole. *)
Definition piece_ok (p : str) : Prop :=
  ("{"%char ∉ p) /\ ("}"%char ∉ p) /\ str_in (lit ", ") p = false.

(** The two shapes of the bridge's answer: the pieces separated by a comma
    and a space, with or without braces around the whole. *)
Definition render_names (braced : bool) (ps : list str) : str :=
  if braced then lit "{" ++ join (lit ", ") ps ++ lit "}"
  else join (lit ", ") ps.

Definition quoted (n : str) : str := dquote :: n ++ [dquote].

(** A name that neither starts nor ends with a double quote. *)
Definition bare (n : str) : Prop :=
  head n <> Some dquote /\ last n <> Some dquote.

(** The configurations [_get_vpn_configurations] returns when the bridge
    is asked at tick [t]. *)
Definition configurations_at (env : Env) (t : nat) : list str :=
  match bridge_text (osascript env t) with
  | [] => []
  | result => parse_configurations result
  end.

(** *** What an operation leaves alone *)

Definition same_keyring : relation State :=
  fun st st' => keyring st' = keyring st.

Definition same_stdin : relation State :=
  fun st st' => stdin st' = stdin st.

(** The seconds spent in [time.sleep] according to a trace. *)
Fixpoint slept (evs : list event) : Z :=
  match evs with
  | [] => 0
  | EvSleep seconds :: evs' => seconds + slept evs'
  | _ :: evs' => slept evs'
  end.

(** The osascript calls in a trace. *)
Fixpoint bridge_calls (evs : list event) : nat :=
  match evs with
  | [] => 0
  | EvOsascript _ :: evs' => S (bridge_calls evs')
  | _ :: evs' => bridge_calls evs'
  end.

(** *** Bounded waiting *)

(** Between [st] and [st'] the trace has grown by calls that slept at
    most [k] seconds in all and went to the bridge at most [b] times. *)
Definition spent (k : Z) (b : nat) (st st' : State) : Prop :=
  exists evs,
    trace st' = trace st ++ evs /\
    0 <= slept evs <= k /\ (bridge_calls evs <= b)%nat.

(** *** More sample environments *)

(** A bridge that prints [out] at every call. *)
Definition answering (out : str) : Env :=
  {| osascript := fun _ => Exit0 out;
     ping := fun _ => Exit0 [];
     keyring_fault := fun _ => None;
     signals := fun _ => false |}.

(** A bridge that fails at every call. *)
Definition failing_env : Env :=
  {| osascript := fun _ => ExitNonzero [];
     ping := fun _ => Exit0 [];
     keyring_fault := fun _ => None;
     signals := fun _ => false |}.

(** As [sample_env], with the network unreachable. *)
Definition offline_env : Env :=
  {| osascript := sample_osascript;
     ping := fun _ => ExitNonzero [];
     keyring_fault := fun _ => None;
     signals := fun _ => false |}.

Definition sample_names : list str := [lit "work"; lit "home-vpn2"].

(** A monitor whose check interval is negative. *)
Definition hasty_monitor : VPNMonitor :=
  {| config_name := lit "vpn"; check_interval := -1 |}.

(** A process with [lines] on standard input and the prefix [p] stored
    for the configuration [vpn]. *)
Definition with_prefix (p : str) (lines : list str) : State :=
  mkState false 0 lines {[ prefix_key (lit "vpn") := p ]} 0 [].

(** * Proofs *)

(** ** Facts about the string operations *)

Section StrFacts.

Lemma startswith_app (p t : str) : startswith (p ++ t) p = true.
Proof.
  induction p as [|a p IH]; simpl; [done|].
  rewrite bool_decide_eq_true_2 by done. exact IH.
Qed.

Lemma startswith_inv (s p : str) :
  startswith s p = true -> exists t, s = p ++ t.
Proof.
  revert s; induction p as [|a p IH]; intros s H; simpl in *.
  - by exists s.
  - destruct s as [|b s]; [done|].
    apply andb_prop in H as [Hab Hs].
    apply bool_decide_eq_true_1 in Hab as ->.
    destruct (IH _ Hs) as [t ->]. by exists t.
Qed.

Lemma startswith_char (c x : ascii) (s : str) :
  startswith (x :: s) [c] = bool_decide (c = x).
Proof. simpl. by rewrite andb_true_r. Qed.

(** Searching for one character passes over a run that lacks it. *)
Lemma find_aux_char_skip (c : ascii) (a b : str) (i : nat) :
  c ∉ a -> find_aux (a ++ b) [c] i = find_aux b [c] (i + length a)%nat.
Proof.
  revert i; induction a as [|x a IH]; intros i Hc; simpl app.
  - simpl. f_equal. lia.
  - apply not_elem_of_cons in Hc as [Hx Ha].
    cbn [find_aux]. rewrite startswith_char, bool_decide_eq_false_2 by done.
    rewrite IH by done. f_equal. simpl. lia.
Qed.

Lemma len_app (a b : str) : len (a ++ b) = len a + len b.
Proof. unfold len. rewrite length_app. lia. Qed.

Lemma len_nonneg (s : str) : 0 <= len s.
Proof. unfold len. lia. Qed.

Lemma clamp_in_range (s : str) (i : Z) :
  0 <= i <= len s -> clamp s i = Z.to_nat i.
Proof.
  intros H. unfold clamp.
  destruct (Z.ltb_spec i 0); [lia|]. f_equal. lia.
Qed.

Lemma slice_middle (a y b : str) :
  slice (a ++ y ++ b) (len a) (len a + len y) = y.
Proof.
  unfold slice.
  rewrite !clamp_in_range by (rewrite !len_app; pose proof (len_nonneg a);
    pose proof (len_nonneg y); pose proof (len_nonneg b); lia).
  unfold len. rewrite Nat2Z.id, drop_app_length.
  replace (Z.to_nat (Z.of_nat (length a) + Z.of_nat (length y)) - length a)%nat
    with (length y) by lia.
  apply take_app_length.
Qed.

(** Where the first comma at or after [a] is, when the text from [a] on is
    a comma-free run [y] followed by the end of the string or a comma. *)
Lemma find_comma_after (a y b : str) :
  ","%char ∉ y ->
  b = [] \/ (exists r, b = ","%char :: r) ->
  find (a ++ y ++ b) (lit ",") (len a)
  = match b with [] => -1 | _ => len a + len y end.
Proof.
  intros Hy Hb. unfold find.
  destruct (Z.ltb_spec (len (a ++ y ++ b)) (len a)) as [Hlt|_].
  { rewrite !len_app in Hlt. pose proof (len_nonneg y).
    pose proof (len_nonneg b). lia. }
  rewrite clamp_in_range by (rewrite !len_app; pose proof (len_nonneg a);
    pose proof (len_nonneg y); pose proof (len_nonneg b); lia).
  unfold len. rewrite Nat2Z.id, drop_app_length.
  change (lit ",") with [","%char].
  rewrite find_aux_char_skip by done.
  destruct Hb as [-> | [r ->]].
  - reflexivity.
  - cbn [find_aux]. rewrite startswith_char, bool_decide_eq_true_2 by done.
    lia.
Qed.

End StrFacts.

(** The value of the status taken from a block whose first [state:] field
    holds [Y]. *)
Lemma block_state (pre Y rest : str) :
  let c := pre ++ lit "state:" ++ Y ++ rest in
  find c (lit "state:") 0 = len pre ->
  ","%char ∉ Y ->
  rest = [] \/ (exists r, rest = ","%char :: r) ->
  let state_start := find c (lit "state:") 0 in
  let state_end := find c (lit ",") state_start in
  let state_end := if state_end =? -1 then len c else state_end in
  negb (state_start =? -1) = true /\
  slice c (state_start + 6) state_end = Y.
Proof.
  intros c Hfind HY Hrest. cbv zeta. rewrite Hfind.
  split.
  { pose proof (len_nonneg pre). by destruct (Z.eqb_spec (len pre) (-1)); [lia|]. }
  assert (Hc : c = pre ++ (lit "state:" ++ Y) ++ rest)
    by (unfold c; by rewrite <- !(assoc_L (++))).
  assert (Hcomma : ","%char ∉ lit "state:" ++ Y).
  { apply not_elem_of_app. split; [|done].
    intros Hin. vm_compute in Hin.
    repeat (apply elem_of_cons in Hin as [Hin|Hin]; [done|]).
    by apply elem_of_nil in Hin. }
  assert (Hfc := find_comma_after pre _ _ Hcomma Hrest). rewrite <- Hc in Hfc.
  rewrite !Hfc. clear Hfc.
  assert (Hend : (if match rest with [] => -1 | _ => len pre + len (lit "state:" ++ Y) end =? -1
                  then len c
                  else match rest with [] => -1 | _ => len pre + len (lit "state:" ++ Y) end)
                 = len (pre ++ lit "state:") + len Y).
  { pose proof (len_nonneg pre). pose proof (len_nonneg Y).
    destruct Hrest as [-> | [r ->]].
    - simpl. unfold c. rewrite !len_app. unfold len at 4. simpl. lia.
    - rewrite !len_app.
      destruct (Z.eqb_spec (len pre + (len (lit "state:") + len Y)) (-1)) as [E|_];
        [|lia].
      unfold len in E at 2. simpl in E. lia. }
  rewrite Hend.
  replace (len pre + 6) with (len (pre ++ lit "state:"))
    by (rewrite len_app; reflexivity).
  unfold c. rewrite (assoc_L (++) pre). apply slice_middle.
Qed.

(** *** Splitting what was joined *)

Lemma split_aux_skip (sep a rest : str) :
  split_aux sep (a ++ rest) (length a) = split_aux sep rest 0.
Proof. induction a as [|x a IH]; [done|]. exact IH. Qed.

Section SplitJoin.

Variable sep : str.
Hypothesis sep_nonempty : sep <> [].
(** No proper non-empty prefix of [sep] is also a suffix of it. *)
Hypothesis sep_unbordered :
  forall k, (0 < k < length sep)%nat ->
            take k sep <> drop (length sep - k) sep.

Lemma str_in_cons_false (x : ascii) (c : str) :
  str_in sep (x :: c) = false ->
  startswith (x :: c) sep = false /\ str_in sep c = false.
Proof. cbn [str_in]. by intros [? ?]%orb_false_elim. Qed.

Lemma split_at_sep (rest : str) :
  split_aux sep (sep ++ rest) 0 = [] :: split_aux sep rest 0.
Proof.
  destruct sep as [|x sep']; [done|].
  cbn [app split_aux].
  change (x :: sep' ++ rest) with ((x :: sep') ++ rest).
  rewrite startswith_app. f_equal.
  cbn [length]. rewrite Nat.sub_1_r. cbn [Nat.pred].
  apply split_aux_skip.
Qed.

Lemma no_early_match (c rest : str) :
  c <> [] ->
  str_in sep c = false ->
  startswith (c ++ sep ++ rest) sep = false.
Proof.
  intros Hc Hin.
  destruct (startswith (c ++ sep ++ rest) sep) eqn:Hs; [exfalso|done].
  apply startswith_inv in Hs as [t Ht].
  destruct (decide (length sep <= length c)%nat) as [Hle|Hgt].
  - assert (Hpre : c = sep ++ drop (length sep) c).
    { rewrite <- (take_drop (length sep) c) at 1. f_equal.
      apply (f_equal (take (length sep))) in Ht.
      rewrite take_app_le in Ht by done.
      by rewrite take_app_length in Ht. }
    assert (Hyes : str_in sep c = true).
    { rewrite Hpre. destruct (sep ++ drop (length sep) c) eqn:E.
      - destruct sep; [done|discriminate].
      - cbn [str_in]. rewrite <- E, startswith_app. done. }
    congruence.
  - assert (Hlen : (0 < length c)%nat) by (destruct c; [done|simpl; lia]).
    apply (sep_unbordered (length sep - length c)); [lia|].
    replace (length sep - (length sep - length c))%nat with (length c) by lia.
    pose proof (f_equal (drop (length c)) Ht) as Hd.
    rewrite drop_app_length in Hd.
    rewrite drop_app_le in Hd by lia.
    apply (f_equal (take (length sep - length c))) in Hd.
    rewrite take_app_le in Hd by lia.
    rewrite take_app_le in Hd by (rewrite length_drop; lia).
    rewrite Hd. apply take_ge. rewrite length_drop. lia.
Qed.

Lemma split_chunk (c rest : str) :
  str_in sep c = false ->
  split_aux sep (c ++ sep ++ rest) 0 = c :: split_aux sep rest 0.
Proof.
  induction c as [|x c IH]; intros Hin.
  - apply split_at_sep.
  - pose proof (no_early_match (x :: c) rest ltac:(done) Hin) as Hno.
    apply str_in_cons_false in Hin as [_ Hin].
    cbn [app split_aux]. cbn [app] in Hno. rewrite Hno.
    by rewrite (IH Hin).
Qed.

Lemma split_last (c : str) :
  str_in sep c = false -> split_aux sep c 0 = [c].
Proof.
  induction c as [|x c IH]; intros Hin; [done|].
  apply str_in_cons_false in Hin as [Hno Hin].
  cbn [split_aux]. rewrite Hno. by rewrite (IH Hin).
Qed.

Lemma split_join (chunks : list str) :
  chunks <> [] ->
  Forall (fun c => str_in sep c = false) chunks ->
  split (join sep chunks) sep = chunks.
Proof.
  intros Hne Hall. unfold split.
  induction Hall as [|c chunks Hc Hall IH]; [done|].
  destruct chunks as [|c' chunks].
  - by apply split_last.
  - cbn [join]. rewrite split_chunk by done. f_equal. by apply IH.
Qed.

End SplitJoin.

Lemma boundary_unbordered k :
  (0 < k < length boundary)%nat ->
  take k boundary <> drop (length boundary - k) boundary.
Proof.
  intros Hk. change (length boundary) with 19%nat in *.
  do 19 (destruct k as [|k]; [first [lia | by vm_compute]|]). lia.
Qed.

(** A blob joined from chunks that do not contain the boundary token
    splits back into these chunks. *)
Lemma split_join_boundary (chunks : list str) :
  chunks <> [] ->
  Forall (fun c => str_in boundary c = false) chunks ->
  split (join boundary chunks) boundary = chunks.
Proof. apply split_join; [done|apply boundary_unbordered]. Qed.

(** ** The parser on the sample in the source comment *)

Example parse_status_readme :
  parse_status
    (lit "autoconnect:NO, state:EXITING, bytesOut:0, name:home-vpn2, class:configuration, bytesIn:0")
    (lit "home-vpn2") = lit "EXITING".
Proof. reflexivity. Qed.

Example split_demo :
  split (lit "a, class:configuration, b, class:configuration") boundary
  = [lit "a, "; lit ", b, "; lit ""].
Proof. reflexivity. Qed.

(** ** The status parser on record chunks *)

Lemma scan_blocks_skip (X : str) (before rest : list str) :
  Forall (skipped X) before ->
  scan_blocks X (before ++ rest) = scan_blocks X rest.
Proof.
  induction 1 as [|b before Hb _ IH]; [done|].
  cbn [app scan_blocks]. destruct Hb as [-> | ->]; [done|].
  by destruct (str_in _ b).
Qed.

Lemma scan_blocks_absent (X : str) (chunks : list str) :
  Forall (fun c => str_in (lit "name:" ++ X) c = false) chunks ->
  scan_blocks X chunks = lit "NOT_FOUND".
Proof.
  induction 1 as [|b chunks Hb _ IH]; [done|].
  cbn [scan_blocks]. by rewrite Hb.
Qed.

(** C1, as stated, fails: the blob below has two records with distinct
    names, the second is named [vpn] and is in state [EXITING], and the
    parser asked for [vpn] answers [CONNECTED], the state of the record
    named [vpn2] that comes first. *)
Lemma parse_status_shadowed_record :
  exists result X Y c,
    c ∈ split result boundary /\
    field (lit "name") c = Some X /\
    field (lit "state") c = Some Y /\
    NoDup (omap (field (lit "name")) (split result boundary)) /\
    parse_status result X <> Y.
Proof.
  exists two_configs, (lit "vpn"), (lit "EXITING"),
    (lit ", bytesIn:0, autoconnect:NO, state:EXITING, bytesOut:0, name:vpn, ").
  split; [|split; [|split; [|split]]].
  - apply list_elem_of_lookup. by exists 1%nat.
  - reflexivity.
  - reflexivity.
  - apply (bool_decide_unpack _). by vm_compute.
  - by vm_compute.
Qed.

(** C1, amended: the parser answers with the [state:] value of the first
    chunk, in split order, that contains [name:X] as a substring and has a
    [state:] field, with surrounding whitespace removed; it answers
    [NOT_FOUND] when no chunk contains [name:X], and [UNKNOWN] for the
    empty blob. The chunks are the pieces between the boundary tokens: a
    blob joined from boundary-free pieces splits back into them. *)
Theorem parse_status_first_match (result X : str) :
  (forall before c after pre Y rest,
      result <> [] ->
      split result boundary = before ++ c :: after ->
      Forall (skipped X) before ->
      str_in (lit "name:" ++ X) c = true ->
      c = pre ++ lit "state:" ++ Y ++ rest ->
      find c (lit "state:") 0 = len pre ->
      ","%char ∉ Y ->
      rest = [] \/ (exists r, rest = ","%char :: r) ->
      parse_status result X = strip Y)
  /\ (result <> [] ->
      Forall (fun c => str_in (lit "name:" ++ X) c = false)
             (split result boundary) ->
      parse_status result X = lit "NOT_FOUND")
  /\ (result = [] -> parse_status result X = lit "UNKNOWN")
  /\ (forall chunks,
         chunks <> [] ->
         Forall (fun c => str_in boundary c = false) chunks ->
         result = join boundary chunks ->
         split result boundary = chunks).
Proof.
  split; [|split; [|split]].
  - intros before c after pre Y rest Hne Hsplit Hbefore Hname -> Hfind HY Hrest.
    destruct result as [|r0 result]; [done|].
    unfold parse_status. rewrite Hsplit, scan_blocks_skip by done.
    cbn [scan_blocks]. rewrite Hname.
    destruct (block_state pre Y rest Hfind HY Hrest) as [Hstart Hslice].
    cbv zeta in Hstart, Hslice. cbv zeta.
    by rewrite Hstart, Hslice.
  - intros Hne Hall. destruct result as [|r0 result]; [done|].
    unfold parse_status. by apply scan_blocks_absent.
  - by intros ->.
  - intros chunks Hne Hfree ->. by apply split_join_boundary.
Qed.

(** The amended statement at the two-record blob: asked for [vpn2] the
    parser answers [CONNECTED]; asked for a name no chunk contains it
    answers [NOT_FOUND]. *)
Lemma parse_status_first_match_witness :
  parse_status two_configs (lit "vpn2") = lit "CONNECTED" /\
  parse_status two_configs (lit "office") = lit "NOT_FOUND" /\
  parse_status [] (lit "vpn2") = lit "UNKNOWN" /\
  split two_configs boundary
  = [lit "autoconnect:NO, state:CONNECTED, bytesOut:0, name:vpn2, ";
     lit ", bytesIn:0, autoconnect:NO, state:EXITING, bytesOut:0, name:vpn, ";
     lit ", bytesIn:0"].
Proof.
  split; [|split; [|split]].
  - apply (proj1 (parse_status_first_match two_configs (lit "vpn2"))
             [] (lit "autoconnect:NO, state:CONNECTED, bytesOut:0, name:vpn2, ")
             [lit ", bytesIn:0, autoconnect:NO, state:EXITING, bytesOut:0, name:vpn, ";
              lit ", bytesIn:0"]
             (lit "autoconnect:NO, ") (lit "CONNECTED")
             (lit ", bytesOut:0, name:vpn2, ")).
    + discriminate.
    + reflexivity.
    + constructor.
    + reflexivity.
    + reflexivity.
    + reflexivity.
    + intros Hin. vm_compute in Hin.
      repeat (apply elem_of_cons in Hin as [Hin|Hin]; [discriminate|]).
      by apply elem_of_nil in Hin.
    + right. by eexists.
  - apply (proj1 (proj2 (parse_status_first_match two_configs (lit "office")))).
    + discriminate.
    + vm_compute. repeat constructor.
  - by apply (proj1 (proj2 (proj2 (parse_status_first_match [] (lit "vpn2"))))).
  - apply (proj2 (proj2 (proj2 (parse_status_first_match two_configs
                                   (lit "vpn2"))))).
    + discriminate.
    + repeat constructor.
    + reflexivity.
Defined.

(** C4: a name that no record has, but that another record's name starts
    with, gets that other record's state instead of [NOT_FOUND]. *)
Theorem name_prefix_matches_other_record :
  exists result X other s,
    Forall (fun c => field (lit "name") c <> Some X) (split result boundary) /\
    (exists c, c ∈ split result boundary /\
               field (lit "name") c = Some other /\
               field (lit "state") c = Some s) /\
    X `prefix_of` other /\ X <> other /\
    parse_status result X = s /\ s <> lit "NOT_FOUND".
Proof.
  exists one_config, (lit "home-vpn"), (lit "home-vpn2"), (lit "CONNECTED").
  split; [|split; [|split; [|split; [|split]]]].
  - vm_compute. repeat constructor; discriminate.
  - exists (lit "autoconnect:NO, state:CONNECTED, bytesOut:0, name:home-vpn2, ").
    split; [|split]; [|reflexivity..].
    apply list_elem_of_lookup. by exists 0%nat.
  - by exists (lit "2").
  - discriminate.
  - reflexivity.
  - discriminate.
Qed.

(** ** How the operations move the state *)

Lemma blocking_eq env e st :
  blocking env e st = (Ok (calls st), after_call env e st).
Proof. unfold after_call, blocking. by destruct (signals env (calls st)). Qed.

Lemma after_call_calls env e st : calls (after_call env e st) = S (calls st).
Proof. unfold after_call, blocking. by destruct (signals env (calls st)). Qed.

Lemma after_call_trace env e st :
  trace (after_call env e st) = trace st ++ [e].
Proof. unfold after_call, blocking. by destruct (signals env (calls st)). Qed.

Lemma after_call_reconnect_count env e st :
  reconnect_count (after_call env e st) = reconnect_count st.
Proof. unfold after_call, blocking. by destruct (signals env (calls st)). Qed.

Lemma after_call_stdin env e st : stdin (after_call env e st) = stdin st.
Proof. unfold after_call, blocking. by destruct (signals env (calls st)). Qed.

Lemma after_call_keyring env e st : keyring (after_call env e st) = keyring st.
Proof. unfold after_call, blocking. by destruct (signals env (calls st)). Qed.

Lemma after_call_running env e st :
  running (after_call env e st)
  = running st && negb (signals env (calls st)).
Proof.
  unfold after_call, blocking.
  destruct (signals env (calls st)); simpl; by rewrite ?andb_false_r, ?andb_true_r.
Qed.

Lemma run_ok {A} (r : result A * State) (a : A) :
  r.1 = Ok a -> r = (Ok a, r.2).
Proof. destruct r as [r st]. simpl. by intros ->. Defined.

Lemma run_raise {A} (r : result A * State) (e : exn) :
  r.1 = Raise e -> r = (Raise e, r.2).
Proof. destruct r as [r st]. simpl. by intros ->. Defined.

Global Instance same_count_preorder : PreOrder same_count.
Proof.
  split.
  - by intros st.
  - intros a b c Hab Hbc. unfold same_count in *. congruence.
Qed.

Global Instance advances_preorder env : PreOrder (advances env).
Proof.
  split.
  - intros st. split; [lia|]. split; [done|]. intros n Hn. lia.
  - intros a b c (Hab1 & Hab2 & Hab3) (Hbc1 & Hbc2 & Hbc3).
    split; [lia|]. split; [tauto|].
    intros n Hn Hsig.
    destruct (decide (n < calls b)%nat) as [Hlt|Hge].
    + specialize (Hab3 n (conj (proj1 Hn) Hlt) Hsig).
      destruct (running c) eqn:Hc; [|done].
      specialize (Hbc2 eq_refl). congruence.
    + apply (Hbc3 n); [lia|done].
Qed.

Section Keeps.

Variable env : Env.
Variable R : relation State.
Context `{!PreOrder R}.
Hypothesis R_blocking : forall e, keeps R (blocking env e).
Hypothesis R_set_stdin : forall l, keeps R (set_stdin l).

Lemma keeps_ret {A} (a : A) : keeps R (ret a).
Proof. intros st. reflexivity. Qed.

Lemma keeps_raise {A} (e : exn) : keeps R (@raise A e).
Proof. intros st. reflexivity. Qed.

Lemma keeps_get {A} (f : State -> A) : keeps R (get f).
Proof. intros st. reflexivity. Qed.

Lemma keeps_bind {A B} (m : M A) (k : A -> M B) :
  keeps R m -> (forall a, keeps R (k a)) -> keeps R (bind m k).
Proof.
  intros Hm Hk st. unfold bind. specialize (Hm st).
  destruct (m st) as [[a|e] st']; simpl in *; [|done].
  etrans; [exact Hm|apply Hk].
Qed.

Lemma keeps_except {A} (body handler : M A) :
  keeps R body -> keeps R handler -> keeps R (except_Exception body handler).
Proof.
  intros Hb Hh st. unfold except_Exception. specialize (Hb st).
  destruct (body st) as [[a|e] st']; simpl in *; [done|].
  destruct (is_Exception e); [|done].
  etrans; [exact Hb|apply Hh].
Qed.

Ltac keeps_step :=
  first
    [ apply keeps_ret | apply keeps_raise | apply keeps_get
    | apply R_blocking | apply R_set_stdin
    | apply keeps_bind; [|intros ?]
    | match goal with
      | |- keeps _ (match ?x with _ => _ end) => destruct x
      end ].

Lemma keeps_sleep seconds : keeps R (sleep env seconds).
Proof. unfold sleep. repeat keeps_step. Qed.

Lemma keeps_input_from lines : keeps R (input_from env lines).
Proof. unfold input_from. repeat keeps_step. Qed.

Lemma keeps_keyring_get_password service username :
  keeps R (keyring_get_password env service username).
Proof. unfold keyring_get_password. repeat keeps_step. Qed.

Lemma keeps_run_applescript s : keeps R (_run_applescript env s).
Proof. unfold _run_applescript. repeat keeps_step. Qed.

Lemma keeps_get_vpn_status cfg : keeps R (_get_vpn_status env cfg).
Proof.
  unfold _get_vpn_status.
  apply keeps_bind; [apply keeps_run_applescript|intros; apply keeps_ret].
Qed.

Lemma keeps_connect_wait cfg n : keeps R (connect_wait env cfg n).
Proof.
  induction n as [|n IH]; simpl; [apply keeps_ret|].
  apply keeps_bind; [apply keeps_get_vpn_status|intros status].
  destruct (bool_decide _); [apply keeps_ret|].
  destruct (is_down status); [apply keeps_ret|].
  apply keeps_bind; [apply keeps_sleep|done].
Qed.

Lemma keeps_connect_vpn cfg password : keeps R (_connect_vpn env cfg password).
Proof.
  unfold _connect_vpn.
  apply keeps_bind; [apply keeps_run_applescript|intros _].
  apply keeps_bind; [apply keeps_sleep|intros _].
  apply keeps_bind; [apply keeps_run_applescript|intros _].
  apply keeps_connect_wait.
Qed.

Lemma keeps_disconnect_wait cfg n : keeps R (disconnect_wait env cfg n).
Proof.
  induction n as [|n IH]; simpl; [apply keeps_ret|].
  apply keeps_bind; [apply keeps_get_vpn_status|intros status].
  destruct (is_down status); [apply keeps_ret|].
  apply keeps_bind; [apply keeps_sleep|done].
Qed.

Lemma keeps_get_stored_credentials cfg :
  keeps R (_get_stored_credentials env cfg).
Proof.
  unfold _get_stored_credentials.
  apply keeps_except; [apply keeps_keyring_get_password|apply keeps_ret].
Qed.

Lemma keeps_check_internet_connectivity :
  keeps R (_check_internet_connectivity env).
Proof. unfold _check_internet_connectivity. repeat keeps_step. Qed.

Lemma keeps_token_loop lines : keeps R (token_loop env lines).
Proof.
  induction lines as [|line rest IH]; simpl.
  - apply keeps_bind; [apply keeps_input_from|intros l].
    destruct (_ && _); [apply keeps_ret|apply keeps_raise].
  - apply keeps_bind; [apply keeps_input_from|intros l].
    destruct (_ && _); [apply keeps_ret|done].
Qed.

Lemma keeps_get_yubikey_token : keeps R (_get_yubikey_token env).
Proof. intros st. apply keeps_token_loop. Qed.

Lemma keeps_cycle_wait self : keeps R (cycle_wait env self).
Proof.
  unfold cycle_wait.
  apply keeps_bind; [apply keeps_get|intros [|]];
    [apply keeps_sleep|apply keeps_ret].
Qed.

Hypothesis R_set_reconnect_count : forall n, keeps R (set_reconnect_count n).

Lemma keeps_cycle_work self prefix : keeps R (cycle_work env self prefix).
Proof.
  unfold cycle_work.
  apply keeps_bind; [apply keeps_get_vpn_status|intros status].
  destruct (bool_decide _); [apply R_set_reconnect_count|].
  apply keeps_bind; [apply keeps_check_internet_connectivity|intros [|]];
    [|apply keeps_ret].
  apply keeps_bind; [apply keeps_get_yubikey_token|intros token].
  apply keeps_bind; [apply keeps_connect_vpn|intros [|]]; [|apply keeps_ret].
  apply keeps_bind; [apply keeps_get|intros n]. apply R_set_reconnect_count.
Qed.

Lemma keeps_cycle self prefix : keeps R (cycle env self prefix).
Proof.
  intros st. unfold cycle.
  assert (Hbody : keeps R (cycle_body env self prefix)).
  { apply keeps_bind; [apply keeps_cycle_work|intros _; apply keeps_cycle_wait]. }
  specialize (Hbody st).
  destruct (cycle_body env self prefix st) as [[[]|e] st']; simpl in *; [done|].
  destruct e; simpl; try done;
    (etrans; [exact Hbody|];
     apply (keeps_bind (sleep env 5) (fun _ => ret Continue));
       [apply keeps_sleep|intros; apply keeps_ret]).
Qed.

End Keeps.

Lemma same_count_blocking env e : keeps same_count (blocking env e).
Proof. intros st. rewrite blocking_eq. apply after_call_reconnect_count. Qed.

Lemma same_count_set_stdin l : keeps same_count (set_stdin l).
Proof. by intros st. Qed.

Lemma advances_blocking env e : keeps (advances env) (blocking env e).
Proof.
  intros st. rewrite blocking_eq. simpl. unfold advances.
  rewrite after_call_calls, after_call_running.
  split; [lia|]. split.
  - by intros [? _]%andb_prop.
  - intros n Hn Hsig. assert (n = calls st) as -> by lia.
    rewrite Hsig. simpl. apply andb_false_r.
Qed.

Lemma advances_set_stdin env l : keeps (advances env) (set_stdin l).
Proof.
  intros st. simpl. split; [done|]. split; [done|]. simpl. intros n Hn. lia.
Qed.

Lemma advances_set_reconnect_count env n :
  keeps (advances env) (set_reconnect_count n).
Proof.
  intros st. simpl. split; [done|]. split; [done|]. simpl. intros k Hk. lia.
Qed.

(** ** Polling after connect and disconnect *)

Section Polling.

Variable env : Env.
Hypothesis answers : bridge_answers env.

Lemma run_applescript_answers s st :
  _run_applescript env s st
  = (Ok (bridge_text (osascript env (calls st))),
     after_call env (EvOsascript s) st).
Proof.
  unfold _run_applescript, bind. rewrite blocking_eq.
  destruct (osascript env (calls st)) eqn:E; try reflexivity.
  by destruct (answers _ _ E).
Qed.

Lemma get_vpn_status_answers cfg st :
  _get_vpn_status env cfg st
  = (Ok (status_at env cfg (calls st)), after_call env poll st).
Proof.
  unfold _get_vpn_status, bind. by rewrite run_applescript_answers.
Qed.

Lemma sleep_nonneg seconds st :
  0 <= seconds <= sleep_max ->
  sleep env seconds st = (Ok tt, after_call env (EvSleep seconds) st).
Proof.
  intros H. unfold sleep.
  destruct (Z.ltb_spec seconds (- sleep_max)); [unfold sleep_max in *; lia|].
  destruct (Z.ltb_spec sleep_max seconds); [lia|].
  destruct (Z.ltb_spec seconds 0); [lia|].
  cbn [orb]. unfold bind. by rewrite blocking_eq.
Qed.

Lemma wait_outcome_step terminal verdict timeout status status2 n st st2 r :
  terminal (status 0%nat) = false ->
  (forall i, status2 i = status (S i)) ->
  trace st2 = trace st ++ [poll; EvSleep 1] ->
  calls st2 = S (S (calls st)) ->
  wait_outcome terminal verdict timeout status2 n st2 r ->
  wait_outcome terminal verdict timeout status (S n) st r.
Proof.
  intros H0 Hshift Htr Hcalls [(i & Hi & [Hterm Hfirst] & Hr & Htrace & Hc)
                              | (Hnone & Hr & Htrace & Hc)].
  - left. exists (S i). split; [lia|]. split; [split|].
    + by rewrite <- Hshift.
    + intros [|j] Hj; [done|]. rewrite <- Hshift. apply Hfirst. lia.
    + split; [by rewrite <- Hshift|]. split.
      * rewrite Htrace, Htr. by rewrite <- !(assoc_L (++)).
      * lia.
  - right. split.
    + intros [|i] Hi; [done|]. rewrite <- Hshift. apply Hnone. lia.
    + split; [done|]. split.
      * rewrite Htrace, Htr. by rewrite <- !(assoc_L (++)).
      * lia.
Qed.

Lemma wait_outcome_now terminal verdict timeout status n st v st1 :
  terminal (status 0%nat) = true ->
  v = verdict (status 0%nat) ->
  trace st1 = trace st ++ [poll] ->
  calls st1 = S (calls st) ->
  wait_outcome terminal verdict timeout status (S n) st (Ok v, st1).
Proof.
  intros H0 -> Htr Hc. left. exists 0%nat.
  split; [lia|]. split; [split; [done|lia]|].
  split; [done|]. split; [done|]. simpl. lia.
Qed.

Lemma connect_wait_outcome cfg n st :
  wait_outcome connect_terminal (fun s => bool_decide (s = CONNECTED)) false
    (fun i => status_at env cfg (calls st + 2 * i)) n st
    (connect_wait env cfg n st).
Proof.
  revert st. induction n as [|n IH]; intros st.
  - right. simpl. split; [lia|]. split; [done|].
    split; [by rewrite app_nil_r|lia].
  - cbn [connect_wait]. unfold bind at 1. rewrite get_vpn_status_answers.
    set (st1 := after_call env poll st).
    assert (Hst1 : trace st1 = trace st ++ [poll] /\ calls st1 = S (calls st))
      by (split; [apply after_call_trace|apply after_call_calls]).
    destruct Hst1 as [Htr1 Hc1].
    destruct (bool_decide (status_at env cfg (calls st) = CONNECTED)) eqn:Hcon.
    { apply wait_outcome_now; try done.
      - unfold connect_terminal. rewrite Nat.add_0_r. by rewrite Hcon.
      - by rewrite Nat.add_0_r, Hcon. }
    destruct (is_down (status_at env cfg (calls st))) eqn:Hdown.
    { apply wait_outcome_now; try done.
      - unfold connect_terminal. rewrite Nat.add_0_r. by rewrite Hcon, Hdown.
      - by rewrite Nat.add_0_r, Hcon. }
    unfold bind. rewrite sleep_nonneg by (unfold sleep_max; lia).
    set (st2 := after_call env (EvSleep 1) st1).
    assert (Hc2 : calls st2 = S (S (calls st)))
      by (unfold st2; by rewrite after_call_calls, Hc1).
    apply (wait_outcome_step _ _ _ _
             (fun i => status_at env cfg (calls st2 + 2 * i)) _ _ st2).
    + unfold connect_terminal. rewrite Nat.add_0_r. by rewrite Hcon, Hdown.
    + intros i. f_equal. lia.
    + unfold st2. rewrite after_call_trace, Htr1. by rewrite <- (assoc_L (++)).
    + done.
    + apply IH.
Qed.

Lemma disconnect_wait_outcome cfg n st :
  wait_outcome is_down (fun _ => true) false
    (fun i => status_at env cfg (calls st + 2 * i)) n st
    (disconnect_wait env cfg n st).
Proof.
  revert st. induction n as [|n IH]; intros st.
  - right. simpl. split; [lia|]. split; [done|].
    split; [by rewrite app_nil_r|lia].
  - cbn [disconnect_wait]. unfold bind at 1. rewrite get_vpn_status_answers.
    set (st1 := after_call env poll st).
    assert (Hst1 : trace st1 = trace st ++ [poll] /\ calls st1 = S (calls st))
      by (split; [apply after_call_trace|apply after_call_calls]).
    destruct Hst1 as [Htr1 Hc1].
    destruct (is_down (status_at env cfg (calls st))) eqn:Hdown.
    { apply wait_outcome_now; try done. by rewrite Nat.add_0_r. }
    unfold bind. rewrite sleep_nonneg by (unfold sleep_max; lia).
    set (st2 := after_call env (EvSleep 1) st1).
    assert (Hc2 : calls st2 = S (S (calls st)))
      by (unfold st2; by rewrite after_call_calls, Hc1).
    apply (wait_outcome_step _ _ _ _
             (fun i => status_at env cfg (calls st2 + 2 * i)) _ _ st2).
    + by rewrite Nat.add_0_r.
    + intros i. f_equal. lia.
    + unfold st2. rewrite after_call_trace, Htr1. by rewrite <- (assoc_L (++)).
    + done.
    + apply IH.
Qed.

End Polling.

(** C2: [_connect_vpn] returns [True] exactly when one of its at most 30
    polls returns [CONNECTED] and no earlier poll returns a status
    containing [EXITING] or [DISCONNECTED]. It stops at the first poll
    that returns [CONNECTED] or such a status, having slept one second
    after each earlier poll, and returns [False] after 30 polls and 30
    sleeps when there is no such poll. *)
Theorem connect_vpn_polls (env : Env) (cfg password : str) (st : State) :
  bridge_answers env ->
  exists b st',
    _connect_vpn env cfg password st = (Ok b, st') /\
    (b = true <->
     exists i, (i < 30)%nat /\ connect_polls env cfg st i = CONNECTED /\
               forall j, (j < i)%nat ->
                         is_down (connect_polls env cfg st j) = false) /\
    ((exists i, (i < 30)%nat /\
                first_terminal connect_terminal (connect_polls env cfg st) i /\
                b = bool_decide (connect_polls env cfg st i = CONNECTED) /\
                trace st' = trace st ++ connect_prelude cfg password
                                     ++ waits i ++ [poll])
     \/ ((forall i, (i < 30)%nat ->
                    connect_terminal (connect_polls env cfg st i) = false) /\
         b = false /\
         trace st' = trace st ++ connect_prelude cfg password ++ waits 30)).
Proof.
  intros Hans.
  unfold _connect_vpn, bind.
  rewrite run_applescript_answers by done.
  rewrite sleep_nonneg by (unfold sleep_max; lia).
  rewrite run_applescript_answers by done.
  set (st3 := after_call env (EvOsascript (EnterPassword password)) _).
  assert (Hc3 : calls st3 = (calls st + 3)%nat).
  { unfold st3. rewrite !after_call_calls. lia. }
  assert (Htr3 : trace st3 = trace st ++ connect_prelude cfg password).
  { unfold st3. rewrite !after_call_trace. by rewrite <- !(assoc_L (++)). }
  pose proof (connect_wait_outcome env Hans cfg 30 st3) as Hout.
  destruct (connect_wait env cfg 30 st3) as [r st'].
  assert (Hpolls : forall i, status_at env cfg (calls st3 + 2 * i)
                             = connect_polls env cfg st i).
  { intros i. unfold connect_polls. by rewrite Hc3. }
  assert (Hshape :
    exists b, r = Ok b /\
    ((exists i, (i < 30)%nat /\
                first_terminal connect_terminal (connect_polls env cfg st) i /\
                b = bool_decide (connect_polls env cfg st i = CONNECTED) /\
                trace st' = trace st ++ connect_prelude cfg password
                                     ++ waits i ++ [poll])
     \/ ((forall i, (i < 30)%nat ->
                    connect_terminal (connect_polls env cfg st i) = false) /\
         b = false /\
         trace st' = trace st ++ connect_prelude cfg password ++ waits 30))).
  { destruct Hout as [(i & Hi & [Hterm Hfirst] & Hr & Htrace & _)
                     | (Hnone & Hr & Htrace & _)]; simpl in *.
    - eexists. split; [exact Hr|]. left. exists i.
      split; [done|]. split; [split|].
      + by rewrite <- Hpolls.
      + intros j Hj. rewrite <- Hpolls. by apply Hfirst.
      + split; [by rewrite Hpolls|].
        rewrite Htrace, Htr3. by rewrite <- !(assoc_L (++)).
    - eexists. split; [exact Hr|]. right.
      split; [|split; [done|]].
      + intros i Hi. rewrite <- Hpolls. by apply Hnone.
      + rewrite Htrace, Htr3. by rewrite <- !(assoc_L (++)). }
  destruct Hshape as (b & -> & Hshape).
  exists b, st'. split; [done|]. split; [|done].
  split.
  - intros ->.
    destruct Hshape as [(i & Hi & [Hterm Hfirst] & Hb & _) | (_ & Hb & _)];
      [|done].
    exists i. split; [done|].
    symmetry in Hb. apply bool_decide_eq_true_1 in Hb.
    split; [done|].
    intros j Hj. specialize (Hfirst j Hj).
    unfold connect_terminal in Hfirst.
    by apply orb_false_elim in Hfirst as [_ ?].
  - intros (i & Hi & Hcon & Hnodown).
    destruct Hshape as [(i0 & Hi0 & [Hterm Hfirst] & Hb & _) | (Hnone & _)].
    + rewrite Hb. apply bool_decide_eq_true_2.
      destruct (decide (i0 = i)) as [->|Hne]; [done|].
      destruct (decide (i0 < i)%nat) as [Hlt|Hge].
      * specialize (Hnodown i0 Hlt). unfold connect_terminal in Hterm.
        rewrite Hnodown, orb_false_r in Hterm.
        by apply bool_decide_eq_true_1 in Hterm.
      * assert (Hlt : (i < i0)%nat) by lia.
        specialize (Hfirst i Hlt). unfold connect_terminal in Hfirst.
        rewrite Hcon in Hfirst. by vm_compute in Hfirst.
    + specialize (Hnone i Hi). unfold connect_terminal in Hnone.
      rewrite Hcon in Hnone. by vm_compute in Hnone.
Qed.

(** C3: [_disconnect_vpn] returns [True] exactly when one of its at most
    10 polls returns a status containing [EXITING] or [DISCONNECTED]. It
    stops at the first such poll, having slept one second after each
    earlier poll, and returns [False] after 10 polls and 10 sleeps when
    there is none. *)
Theorem disconnect_vpn_polls (env : Env) (cfg : str) (st : State) :
  bridge_answers env ->
  exists b st',
    _disconnect_vpn env cfg st = (Ok b, st') /\
    (b = true <->
     exists i, (i < 10)%nat /\ is_down (disconnect_polls env cfg st i) = true) /\
    ((exists i, (i < 10)%nat /\
                first_terminal is_down (disconnect_polls env cfg st) i /\
                b = true /\
                trace st' = trace st ++ [EvOsascript (Disconnect cfg)]
                                     ++ waits i ++ [poll])
     \/ ((forall i, (i < 10)%nat ->
                    is_down (disconnect_polls env cfg st i) = false) /\
         b = false /\
         trace st' = trace st ++ [EvOsascript (Disconnect cfg)] ++ waits 10)).
Proof.
  intros Hans.
  unfold _disconnect_vpn, bind.
  rewrite run_applescript_answers by done.
  set (st1 := after_call env (EvOsascript (Disconnect cfg)) _).
  assert (Hc1 : calls st1 = (calls st + 1)%nat).
  { unfold st1. rewrite !after_call_calls. lia. }
  assert (Htr1 : trace st1 = trace st ++ [EvOsascript (Disconnect cfg)]).
  { unfold st1. by rewrite !after_call_trace. }
  pose proof (disconnect_wait_outcome env Hans cfg 10 st1) as Hout.
  destruct (disconnect_wait env cfg 10 st1) as [r st'].
  assert (Hpolls : forall i, status_at env cfg (calls st1 + 2 * i)
                             = disconnect_polls env cfg st i).
  { intros i. unfold disconnect_polls. by rewrite Hc1. }
  destruct Hout as [(i & Hi & [Hterm Hfirst] & Hr & Htrace & _)
                   | (Hnone & Hr & Htrace & _)]; simpl in *; subst r.
  - exists true, st'. split; [done|].
    rewrite Hpolls in Hterm.
    split; [split; [intros _; by exists i|done]|].
    left. exists i. split; [done|]. split; [split; [done|]|].
    + intros j Hj. rewrite <- Hpolls. by apply Hfirst.
    + split; [done|]. rewrite Htrace, Htr1. by rewrite <- !(assoc_L (++)).
  - exists false, st'. split; [done|].
    assert (Hnone' : forall i, (i < 10)%nat ->
                               is_down (disconnect_polls env cfg st i) = false).
    { intros i Hi. rewrite <- Hpolls. by apply Hnone. }
    split.
    + split; [done|]. intros (i & Hi & Hdown).
      rewrite (Hnone' i Hi) in Hdown. done.
    + right. split; [done|]. split; [done|].
      rewrite Htrace, Htr1. by rewrite <- !(assoc_L (++)).
Qed.

(** ** The token prompt *)

Section Token.

Variable env : Env.

Lemma input_from_line line rest st :
  input_from env (line :: rest) st
  = (Ok line, (set_stdin rest (after_call env EvInput st)).2).
Proof. unfold input_from, bind. by rewrite blocking_eq. Qed.

Lemma input_from_eof st :
  input_from env [] st = (Raise EOFError, after_call env EvInput st).
Proof. unfold input_from, bind. by rewrite blocking_eq. Qed.

Lemma token_loop_accepts pre good post st :
  Forall rejected pre ->
  accepted good = true ->
  exists st',
    token_loop env (pre ++ good :: post) st = (Ok (strip good), st') /\
    stdin st' = post /\
    trace st' = trace st ++ replicate (S (length pre)) EvInput.
Proof.
  intros Hpre Hgood. revert st.
  induction Hpre as [|line pre Hline _ IH]; intros st.
  - cbn [app token_loop]. unfold bind. rewrite input_from_line.
    fold (accepted good). rewrite Hgood.
    eexists. split; [reflexivity|]. split; [done|].
    simpl. apply after_call_trace.
  - cbn [app token_loop]. unfold bind. rewrite input_from_line.
    fold (accepted line). rewrite Hline.
    destruct (IH (set_stdin (pre ++ good :: post)
                    (after_call env EvInput st)).2) as (st' & Hrun & Hin & Htr).
    exists st'. split; [done|]. split; [done|].
    rewrite Htr. simpl. rewrite after_call_trace.
    by rewrite <- (assoc_L (++)).
Qed.

Lemma token_loop_returns lines st token st' :
  token_loop env lines st = (Ok token, st') ->
  isdigit token = true /\ length token = 6%nat.
Proof.
  revert st. induction lines as [|line rest IH]; intros st.
  - cbn [token_loop]. unfold bind. by rewrite input_from_eof.
  - cbn [token_loop]. unfold bind. rewrite input_from_line.
    destruct (isdigit (strip line) && (len (strip line) =? 6)) eqn:Hok.
    + intros [= <- <-]. apply andb_prop in Hok as [Hd Hl].
      split; [done|]. apply Z.eqb_eq in Hl. unfold len in Hl. lia.
    + apply IH.
Qed.

Lemma token_loop_raises lines st e st' :
  token_loop env lines st = (Raise e, st') ->
  e = EOFError /\ Forall rejected lines.
Proof.
  revert st. induction lines as [|line rest IH]; intros st.
  - cbn [token_loop]. unfold bind. rewrite input_from_eof.
    by intros [= <- <-].
  - cbn [token_loop]. unfold bind. rewrite input_from_line.
    destruct (isdigit (strip line) && (len (strip line) =? 6)) eqn:Hok; [done|].
    intros Hrun. destruct (IH _ Hrun) as [-> Hrest].
    split; [done|]. by constructor.
Qed.

End Token.

(** C5, as stated, fails: when standard input ends before a valid token
    has been typed, [input] raises [EOFError] and the loop lets it
    through. *)
Lemma get_yubikey_token_end_of_input :
  exists env st,
    stdin st = [lit "12345"; lit "abcdef"; lit "1234567"] /\
    (_get_yubikey_token env st).1 = Raise EOFError.
Proof.
  exists {| osascript := fun _ => Exit0 []; ping := fun _ => Exit0 [];
            keyring_fault := fun _ => None; signals := fun _ => false |},
         (mkState false 0 [lit "12345"; lit "abcdef"; lit "1234567"] ∅ 0 []).
  split; reflexivity.
Qed.

(** C5, amended: when the lines still to be read contain one whose
    stripped form is six digits, the loop returns the first such line,
    stripped, after prompting once for it and once for each line before
    it, and leaves the later lines unread. Whatever it returns is six
    digits long and all digits. It raises only [EOFError], and only when
    every line left was rejected. *)
Theorem get_yubikey_token_first_valid (env : Env) (st : State) :
  (forall pre good post,
      stdin st = pre ++ good :: post ->
      Forall rejected pre ->
      accepted good = true ->
      exists st',
        _get_yubikey_token env st = (Ok (strip good), st') /\
        stdin st' = post /\
        trace st' = trace st ++ replicate (S (length pre)) EvInput)
  /\ (forall token st',
         _get_yubikey_token env st = (Ok token, st') ->
         isdigit token = true /\ length token = 6%nat)
  /\ (forall e st',
         _get_yubikey_token env st = (Raise e, st') ->
         e = EOFError /\ Forall rejected (stdin st)).
Proof.
  unfold _get_yubikey_token. split; [|split].
  - intros pre good post -> Hpre Hgood. by apply token_loop_accepts.
  - intros token st'. apply token_loop_returns.
  - intros e st'. apply token_loop_raises.
Qed.

(** ** The monitor loop *)

Section Monitor.

Variable env : Env.
Variable self : VPNMonitor.
Variable prefix : str.

Create HintDb keeps.

Local Hint Resolve same_count_blocking same_count_set_stdin
  advances_blocking advances_set_stdin advances_set_reconnect_count : keeps.

Ltac keeps_with lem :=
  eapply lem; eauto with keeps typeclass_instances.

Lemma count_get_vpn_status cfg st :
  reconnect_count (_get_vpn_status env cfg st).2 = reconnect_count st.
Proof. keeps_with (keeps_get_vpn_status env same_count). Qed.

Lemma count_check_internet_connectivity st :
  reconnect_count (_check_internet_connectivity env st).2 = reconnect_count st.
Proof. keeps_with (keeps_check_internet_connectivity env same_count). Qed.

Lemma count_get_yubikey_token st :
  reconnect_count (_get_yubikey_token env st).2 = reconnect_count st.
Proof. keeps_with (keeps_get_yubikey_token env same_count). Qed.

Lemma count_connect_vpn cfg password st :
  reconnect_count (_connect_vpn env cfg password st).2 = reconnect_count st.
Proof. keeps_with (keeps_connect_vpn env same_count). Qed.

Lemma count_cycle_wait st :
  reconnect_count (cycle_wait env self st).2 = reconnect_count st.
Proof. keeps_with (keeps_cycle_wait env same_count). Qed.

Lemma count_sleep seconds st :
  reconnect_count (sleep env seconds st).2 = reconnect_count st.
Proof. keeps_with (keeps_sleep env same_count). Qed.

Lemma cycle_advances st : advances env st (cycle env self prefix st).2.
Proof. keeps_with (keeps_cycle env (advances env)). Qed.

(** The counter after a pass through the [try] statement is the counter
    after [cycle_work]: the interval sleep and the handler's pause leave
    it alone. *)
Lemma cycle_count_after_work st :
  reconnect_count (cycle env self prefix st).2
  = reconnect_count (cycle_work env self prefix st).2.
Proof.
  unfold cycle, cycle_body, bind.
  destruct (cycle_work env self prefix st) as [[[]|e] st1]; simpl.
  - pose proof (count_cycle_wait st1) as Hw.
    destruct (cycle_wait env self st1) as [[[]|e] st2]; simpl in *; [done|].
    destruct e; simpl; try done;
      unfold bind;
      match goal with
      | |- context [sleep env 5 ?s] =>
          pose proof (count_sleep 5 s) as Hs;
          destruct (sleep env 5 s) as [[[]|?] ?]; simpl in *; congruence
      end.
  - destruct e; simpl; try done;
      unfold bind;
      match goal with
      | |- context [sleep env 5 ?s] =>
          pose proof (count_sleep 5 s) as Hs;
          destruct (sleep env 5 s) as [[[]|?] ?]; simpl in *; congruence
      end.
Qed.

Lemma cycle_work_count st :
  let n := reconnect_count (cycle_work env self prefix st).2 in
  (polled_connected env self st /\ n = 0) \/
  (reconnected env self prefix st /\ n = reconnect_count st + 1) \/
  (~ polled_connected env self st /\ ~ reconnected env self prefix st /\
   n = reconnect_count st).
Proof.
  cbv zeta. unfold polled_connected, reconnected, cycle_work, bind.
  pose proof (count_get_vpn_status (config_name self) st) as H1.
  destruct (_get_vpn_status env (config_name self) st) as [[status|e] st1]
    eqn:E1; simpl in H1.
  2:{ right; right. split; [by intros [? ?]|].
      split; [by intros (?&?&?&?&?&?&?&_)|done]. }
  destruct (bool_decide (status = CONNECTED)) eqn:Hcon.
  { apply bool_decide_eq_true_1 in Hcon as ->. left. split; [by eexists|done]. }
  apply bool_decide_eq_false_1 in Hcon.
  assert (Hnc : ~ (exists st0, (Ok status, st1) = (Ok CONNECTED, st0)))
    by (intros [? [= ? ?]]; congruence).
  pose proof (count_check_internet_connectivity st1) as H2.
  destruct (_check_internet_connectivity env st1) as [[[|]|e] st2] eqn:E2;
    simpl in H2.
  2,3: right; right; (split; [done|]);
       (split; [intros (?&?&?&?&?&?&[= <- <-]&?&?&?&?); congruence
               |simpl; congruence]).
  pose proof (count_get_yubikey_token st2) as H3.
  destruct (_get_yubikey_token env st2) as [[token|e] st3] eqn:E3; simpl in H3.
  2:{ right; right. split; [done|].
      split; [intros (?&?&?&?&?&?&[= <- <-]&?&?&?&?); congruence
             |simpl; congruence]. }
  pose proof (count_connect_vpn (config_name self) (prefix ++ token) st3) as H4.
  destruct (_connect_vpn env (config_name self) (prefix ++ token) st3)
    as [[[|]|e] st4] eqn:E4; simpl in H4.
  - right; left. split.
    + by exists status, st1, st2, token, st3, st4.
    + simpl. congruence.
  - right; right. split; [done|]. split; [|simpl; congruence].
    intros (?&?&?&?&?&?&[= <- <-]&?&?&?&?). congruence.
  - right; right. split; [done|]. split; [|simpl; congruence].
    intros (?&?&?&?&?&?&[= <- <-]&?&?&?&?). congruence.
Qed.

End Monitor.

(** C6: in a cycle whose poll returns [CONNECTED] the counter becomes 0;
    in a cycle whose reconnect attempt succeeds it grows by exactly 1; in
    every other cycle, also one that ends in an exception, it keeps its
    value. *)
Theorem reconnect_count_cycle (env : Env) (self : VPNMonitor) (prefix : str)
    (st : State) :
  let n := reconnect_count (cycle env self prefix st).2 in
  (polled_connected env self st -> n = 0) /\
  (reconnected env self prefix st -> n = reconnect_count st + 1) /\
  (~ polled_connected env self st -> ~ reconnected env self prefix st ->
   n = reconnect_count st).
Proof.
  cbv zeta. rewrite cycle_count_after_work.
  pose proof (cycle_work_count env self prefix st) as H. cbv zeta in H.
  assert (Hexcl : polled_connected env self st ->
                  reconnected env self prefix st -> False).
  { intros [st1 Hp] (status & st1' & ? & ? & ? & ? & Hs & Hne & _).
    rewrite Hp in Hs. congruence. }
  destruct H as [[Hc Hn] | [[Hr Hn] | (Hnc & Hnr & Hn)]].
  - split; [done|]. split; [intros; exfalso; eauto|]. intros; exfalso; eauto.
  - split; [intros; exfalso; eauto|]. split; [done|]. intros; exfalso; eauto.
  - split; [intros; exfalso; eauto|]. split; [intros; exfalso; eauto|]. done.
Qed.

(** ** The keychain *)

Lemma prefix_key_inj cfg cfg' : prefix_key cfg = prefix_key cfg' -> cfg = cfg'.
Proof.
  unfold prefix_key, service_name. intros H.
  apply (f_equal fst) in H. cbn [fst] in H. by apply app_inv_head in H.
Qed.

Lemma get_stored_credentials_run env cfg st :
  _get_stored_credentials env cfg st
  = (match keyring_fault env (calls st) with
     | None => Ok (keyring st !! prefix_key cfg)
     | Some e => if is_Exception e then Ok None else Raise e
     end,
     after_call env (EvKeyringGet (service_name cfg) (lit "prefix")) st).
Proof.
  unfold _get_stored_credentials, except_Exception, keyring_get_password, bind.
  rewrite blocking_eq.
  destruct (keyring_fault env (calls st)) as [e|]; simpl.
  - by destruct (is_Exception e).
  - by rewrite after_call_keyring.
Qed.

Lemma store_credentials_run env cfg prefix st :
  _store_credentials env cfg prefix st
  = match keyring_fault env (calls st) with
    | None =>
        set_keyring (<[prefix_key cfg := prefix]> (keyring st))
          (after_call env
             (EvKeyringSet (service_name cfg) (lit "prefix") prefix) st)
    | Some e =>
        (Raise e,
         after_call env
           (EvKeyringSet (service_name cfg) (lit "prefix") prefix) st)
    end.
Proof.
  unfold _store_credentials, keyring_set_password, bind.
  rewrite blocking_eq.
  destruct (keyring_fault env (calls st)) as [e|]; simpl; [done|].
  by rewrite after_call_keyring.
Qed.

(** C7: a prefix stored for a name is what a retrieval for that name
    returns; a retrieval for a name whose entry the keychain lacks returns
    [None], and storing under other names does not create the entry; a
    retrieval during which the keychain raises an [Exception] returns
    [None] as well. *)
Theorem stored_prefix_round_trip (env : Env) (cfg : str) (st : State) :
  (forall prefix st1,
      _store_credentials env cfg prefix st = (Ok tt, st1) ->
      keyring_fault env (calls st1) = None ->
      (_get_stored_credentials env cfg st1).1 = Ok (Some prefix))
  /\ (keyring st !! prefix_key cfg = None ->
      (forall e, keyring_fault env (calls st) = Some e ->
                 is_Exception e = true) ->
      (_get_stored_credentials env cfg st).1 = Ok None)
  /\ (forall other prefix,
         other <> cfg ->
         keyring st !! prefix_key cfg = None ->
         keyring (_store_credentials env other prefix st).2 !! prefix_key cfg
         = None)
  /\ (forall e,
         keyring_fault env (calls st) = Some e ->
         is_Exception e = true ->
         (_get_stored_credentials env cfg st).1 = Ok None).
Proof.
  split; [|split; [|split]].
  - intros prefix st1 Hstore Hok.
    rewrite store_credentials_run in Hstore.
    destruct (keyring_fault env (calls st)); [done|].
    injection Hstore as <-.
    rewrite get_stored_credentials_run. simpl in *. rewrite Hok.
    by rewrite lookup_insert_eq.
  - intros Habsent Hfault. rewrite get_stored_credentials_run. simpl.
    destruct (keyring_fault env (calls st)) as [e|]; [|by rewrite Habsent].
    by rewrite (Hfault e).
  - intros other prefix Hne Habsent. rewrite store_credentials_run.
    destruct (keyring_fault env (calls st)); simpl.
    + by rewrite after_call_keyring.
    + rewrite lookup_insert_ne; [done|].
      intros Heq. by apply prefix_key_inj in Heq.
  - intros e He Hexc. rewrite get_stored_credentials_run. simpl.
    by rewrite He, Hexc.
Qed.

(** ** Start-up, shutdown and the loop boundary *)

(** C10: when the keychain returns no prefix or the empty string,
    [start_monitoring] returns in the state the retrieval left, without
    setting the running flag, and [test_connection] returns [False] in
    that same state: all that has happened is the keychain read. *)
Theorem empty_prefix_aborts (env : Env) (self : VPNMonitor) (st st1 : State)
    (p : option str) :
  _get_stored_credentials env (config_name self) st = (Ok p, st1) ->
  p = None \/ p = Some [] ->
  (forall fuel, start_monitoring env self fuel st = Some (Ok tt, st1)) /\
  test_connection env self st = (Ok false, st1) /\
  trace st1
  = trace st ++ [EvKeyringGet (service_name (config_name self)) (lit "prefix")] /\
  stdin st1 = stdin st /\
  (running st = false -> running st1 = false).
Proof.
  intros Hget Hp.
  split; [|split; [|split; [|split]]].
  - intros fuel. unfold start_monitoring. rewrite Hget.
    by destruct Hp as [-> | ->].
  - unfold test_connection, bind. rewrite Hget.
    by destruct Hp as [-> | ->].
  - rewrite get_stored_credentials_run in Hget. injection Hget as _ <-.
    apply after_call_trace.
  - rewrite get_stored_credentials_run in Hget. injection Hget as _ <-.
    apply after_call_stdin.
  - rewrite get_stored_credentials_run in Hget. injection Hget as _ <-.
    rewrite after_call_running. by intros ->.
Qed.

Section Loop.

Variable env : Env.
Variable self : VPNMonitor.
Variable prefix : str.

Lemma monitor_loop_stopped fuel st :
  running st = false ->
  monitor_loop env self prefix fuel st = Some (Ok tt, st).
Proof. intros H. destruct fuel; simpl; by rewrite H. Qed.

Lemma sleep_5 st :
  sleep env 5 st = (Ok tt, after_call env (EvSleep 5) st).
Proof. apply sleep_nonneg. unfold sleep_max. lia. Qed.

(** A pass through the [try] statement never lets an exception out. *)
Lemma cycle_catches st : exists c st', cycle env self prefix st = (Ok c, st').
Proof.
  unfold cycle.
  destruct (cycle_body env self prefix st) as [[[]|e] st1]; [by eexists _, _|].
  destruct e; simpl; unfold bind; rewrite ?sleep_5; by eexists _, _.
Qed.

Lemma cycle_handles st e st1 :
  cycle_body env self prefix st = (Raise e, st1) ->
  e <> KeyboardInterrupt ->
  cycle env self prefix st = (Ok Continue, after_call env (EvSleep 5) st1).
Proof.
  intros Hbody Hne. unfold cycle. rewrite Hbody.
  destruct e; [done|..]; simpl; unfold bind; by rewrite sleep_5.
Qed.

End Loop.

(** ** What a cycle does after its poll, and what it can raise *)

Global Instance grows_preorder : PreOrder grows.
Proof.
  split.
  - intros st. unfold grows. reflexivity.
  - intros a b c Hab Hbc. unfold grows in *. by etrans.
Qed.

Global Instance steady_preorder env : PreOrder (steady env).
Proof.
  split.
  - intros st. split; [lia|done].
  - intros a b c [Hab1 Hab2] [Hbc1 Hbc2]. split; [lia|].
    intros Hno. rewrite Hbc2, Hab2; [done|..]; intros n Hn; apply Hno; lia.
Qed.

Lemma grows_blocking env e : keeps grows (blocking env e).
Proof.
  intros st. rewrite blocking_eq. simpl. unfold grows.
  rewrite after_call_trace. by exists [e].
Qed.

Lemma grows_set_stdin l : keeps grows (set_stdin l).
Proof. intros st. unfold grows. simpl. reflexivity. Qed.

Lemma grows_set_reconnect_count n : keeps grows (set_reconnect_count n).
Proof. intros st. unfold grows. simpl. reflexivity. Qed.

Lemma steady_blocking env e : keeps (steady env) (blocking env e).
Proof.
  intros st. rewrite blocking_eq. simpl. unfold steady.
  rewrite after_call_calls, after_call_running. split; [lia|].
  intros Hno. rewrite (Hno (calls st)) by lia. simpl. apply andb_true_r.
Qed.

Lemma steady_set_stdin env l : keeps (steady env) (set_stdin l).
Proof. intros st. by split. Qed.

Lemma steady_set_reconnect_count env n :
  keeps (steady env) (set_reconnect_count n).
Proof. intros st. by split. Qed.

Section FromPoll.

Variable env : Env.
Variable self : VPNMonitor.
Variable prefix : str.

Lemma cycle_work_after_poll st :
  cycle_work env self prefix st
  = (status <- _get_vpn_status env (config_name self) ;;
     after_poll env self prefix status) st.
Proof. reflexivity. Qed.

Lemma get_vpn_status_state cfg st :
  (_get_vpn_status env cfg st).2 = after_call env poll st.
Proof.
  unfold _get_vpn_status, _run_applescript, bind. rewrite blocking_eq.
  by destruct (osascript env (calls st)).
Qed.

Variable R : relation State.
Context `{!PreOrder R}.
Hypothesis R_blocking : forall e, keeps R (blocking env e).
Hypothesis R_set_stdin : forall l, keeps R (set_stdin l).
Hypothesis R_set_reconnect_count : forall n, keeps R (set_reconnect_count n).

Lemma keeps_after_poll status : keeps R (after_poll env self prefix status).
Proof.
  unfold after_poll.
  destruct (bool_decide _); [apply R_set_reconnect_count|].
  apply (keeps_bind R).
  { by apply (keeps_check_internet_connectivity env R). }
  intros [|]; [|apply (keeps_ret R)].
  apply (keeps_bind R).
  { by apply (keeps_get_yubikey_token env R). }
  intros token. apply (keeps_bind R).
  { by apply (keeps_connect_vpn env R). }
  intros [|]; [|apply (keeps_ret R)].
  apply (keeps_bind R); [apply (keeps_get R)|].
  intros n. apply R_set_reconnect_count.
Qed.

(** Every cycle starts with the status poll: what follows it in the
    cycle starts from the state right after that call. *)
Lemma cycle_from_poll st :
  R (after_call env poll st) (cycle env self prefix st).2.
Proof.
  assert (Hwork : R (after_call env poll st) (cycle_work env self prefix st).2).
  { rewrite cycle_work_after_poll. unfold bind.
    pose proof (get_vpn_status_state (config_name self) st) as Hst.
    destruct (_get_vpn_status env (config_name self) st) as [[status|e] st1];
      simpl in Hst; subst st1.
    - apply keeps_after_poll.
    - simpl. reflexivity. }
  assert (Hwait : forall s, R s (cycle_wait env self s).2).
  { intros s. by apply (keeps_cycle_wait env R). }
  assert (Hsleep : forall s, R s (sleep env 5 s).2).
  { intros s. by apply (keeps_sleep env R). }
  unfold cycle, cycle_body, bind.
  destruct (cycle_work env self prefix st) as [[[]|e] st1]; simpl in Hwork.
  - assert (Hbody : R (after_call env poll st) (cycle_wait env self st1).2)
      by (by etrans).
    destruct (cycle_wait env self st1) as [[[]|e] st2]; simpl in *; [done|].
    specialize (Hsleep st2).
    destruct e; simpl; try done;
      destruct (sleep env 5 st2) as [[[]|?] ?]; simpl in *; by etrans.
  - specialize (Hsleep st1).
    destruct e; simpl; try done;
      destruct (sleep env 5 st1) as [[[]|?] ?]; simpl in *; by etrans.
Qed.

End FromPoll.

Section Raises.

Variable env : Env.
Variable P : exn -> Prop.
Hypothesis P_osascript : forall t e, osascript env t = Fails e -> P e.
Hypothesis P_ping : forall t e, ping env t = Fails e -> P e.
Hypothesis P_EOFError : P EOFError.
Hypothesis P_ValueError : P ValueError.
Hypothesis P_OverflowError : P (OtherException (lit "OverflowError")).

Lemma raises_ret {A} (a : A) : raises_only P (ret a).
Proof. intros st e st' H. discriminate H. Qed.

Lemma raises_raise {A} (e : exn) : P e -> raises_only P (@raise A e).
Proof. intros H st e' st' [= <- _]. exact H. Qed.

Lemma raises_bind {A B} (m : M A) (k : A -> M B) :
  raises_only P m -> (forall a, raises_only P (k a)) ->
  raises_only P (bind m k).
Proof.
  intros Hm Hk st e st'. unfold bind.
  destruct (m st) as [[a|e0] st1] eqn:E.
  - apply Hk.
  - intros [= <- <-]. by apply (Hm _ _ _ E).
Qed.

Lemma raises_blocking ev : raises_only P (blocking env ev).
Proof. intros st e st'. rewrite blocking_eq. discriminate. Qed.

Lemma raises_sleep seconds : raises_only P (sleep env seconds).
Proof.
  unfold sleep. destruct (_ || _); [by apply raises_raise|].
  destruct (_ <? _); [by apply raises_raise|].
  apply raises_bind; [apply raises_blocking|intros; apply raises_ret].
Qed.

Lemma raises_input_from lines : raises_only P (input_from env lines).
Proof.
  unfold input_from. apply raises_bind; [apply raises_blocking|intros _].
  destruct lines as [|line rest]; [by apply raises_raise|].
  apply raises_bind; [|intros; apply raises_ret].
  intros st e st' H. discriminate H.
Qed.

Lemma raises_token_loop lines : raises_only P (token_loop env lines).
Proof.
  induction lines as [|line rest IH]; simpl.
  - apply raises_bind; [apply raises_input_from|intros l].
    destruct (_ && _); [apply raises_ret|by apply raises_raise].
  - apply raises_bind; [apply raises_input_from|intros l].
    destruct (_ && _); [apply raises_ret|done].
Qed.

Lemma raises_run_applescript s : raises_only P (_run_applescript env s).
Proof.
  unfold _run_applescript.
  apply raises_bind; [apply raises_blocking|intros n].
  destruct (osascript env n) eqn:E; try apply raises_ret.
  apply raises_raise. by apply (P_osascript n).
Qed.

Lemma raises_get_vpn_status cfg : raises_only P (_get_vpn_status env cfg).
Proof.
  unfold _get_vpn_status.
  apply raises_bind; [apply raises_run_applescript|intros; apply raises_ret].
Qed.

Lemma raises_connect_wait cfg n : raises_only P (connect_wait env cfg n).
Proof.
  induction n as [|n IH]; simpl; [apply raises_ret|].
  apply raises_bind; [apply raises_get_vpn_status|intros status].
  destruct (bool_decide _); [apply raises_ret|].
  destruct (is_down status); [apply raises_ret|].
  apply raises_bind; [apply raises_sleep|done].
Qed.

Lemma raises_connect_vpn cfg password :
  raises_only P (_connect_vpn env cfg password).
Proof.
  unfold _connect_vpn.
  apply raises_bind; [apply raises_run_applescript|intros _].
  apply raises_bind; [apply raises_sleep|intros _].
  apply raises_bind; [apply raises_run_applescript|intros _].
  apply raises_connect_wait.
Qed.

Lemma raises_check_internet_connectivity :
  raises_only P (_check_internet_connectivity env).
Proof.
  unfold _check_internet_connectivity.
  apply raises_bind; [apply raises_blocking|intros n].
  destruct (ping env n) eqn:E; try apply raises_ret.
  apply raises_raise. by apply (P_ping n).
Qed.

Lemma raises_cycle_body self prefix :
  raises_only P (cycle_body env self prefix).
Proof.
  unfold cycle_body, cycle_work, cycle_wait.
  apply raises_bind.
  - apply raises_bind; [apply raises_get_vpn_status|intros status].
    destruct (bool_decide _); [by intros st e st' H|].
    apply raises_bind; [apply raises_check_internet_connectivity|intros [|]];
      [|apply raises_ret].
    apply raises_bind; [intros st; apply raises_token_loop|intros token].
    apply raises_bind; [apply raises_connect_vpn|intros [|]];
      [|apply raises_ret].
    apply raises_bind; [by intros st e st' H|]. by intros n st e st' H.
  - intros _. apply raises_bind; [by intros st e st' H|intros [|]];
      [apply raises_sleep|apply raises_ret].
Qed.

End Raises.

Section Forever.

Variable env : Env.
Variable self : VPNMonitor.
Variable prefix : str.
Hypothesis calm : uninterrupted env.

Lemma cycle_body_no_interrupt st st1 :
  cycle_body env self prefix st <> (Raise KeyboardInterrupt, st1).
Proof.
  intros H.
  apply (raises_cycle_body env (fun e => e <> KeyboardInterrupt)) in H;
    try done.
  - intros t e Ht ->. by destruct (calm t).
  - intros t e Ht ->. by destruct (calm t).
Qed.

Lemma cycle_continues st :
  exists st', cycle env self prefix st = (Ok Continue, st').
Proof.
  destruct (cycle_body env self prefix st) as [[[]|e] st1] eqn:E.
  - exists st1. unfold cycle. by rewrite E.
  - eexists. apply (cycle_handles _ _ _ _ _ _ E).
    intros ->. by apply cycle_body_no_interrupt in E.
Qed.

Lemma monitor_loop_forever fuel st :
  running st = true ->
  (forall n, (calls st <= n)%nat -> signals env n = false) ->
  monitor_loop env self prefix fuel st = None.
Proof.
  revert st. induction fuel as [|fuel IH]; intros st Hrun Hno;
    cbn [monitor_loop]; rewrite Hrun; [done|].
  destruct (cycle_continues st) as [st' Hc].
  assert (Hst : steady env st (cycle env self prefix st).2).
  { apply (keeps_cycle env (steady env));
      auto using steady_blocking, steady_set_stdin,
                 steady_set_reconnect_count. }
  rewrite Hc in *. destruct Hst as [Hle Hflag]. simpl in *.
  apply IH.
  - rewrite Hflag; [done|]. intros n Hn. apply Hno. lia.
  - intros n Hn. apply Hno. lia.
Qed.

End Forever.

(** C8, as stated, fails: a signal that arrives during the status poll of
    a cycle clears the flag, and the cycle still goes on to probe the
    network, prompt for the token and make its reconnect attempt, with the
    status polls that belong to it. Only the interval sleep is skipped. *)
Lemma reconnect_after_cleared_flag :
  exists st1,
    running (looping [lit "12345"; lit " 042018 "] 0) = true /\
    _get_vpn_status signal_env (lit "vpn")
      (looping [lit "12345"; lit " 042018 "] 0) = (Ok EXITING, st1) /\
    running st1 = false /\
    trace (cycle signal_env sample_monitor (lit "pw")
             (looping [lit "12345"; lit " 042018 "] 0)).2
    = trace st1 ++
      [EvPing; EvInput; EvInput; EvOsascript (Connect (lit "vpn")); EvSleep 2;
       EvOsascript (EnterPassword (lit "pw042018")); poll; EvSleep 1; poll].
Proof.
  eexists. split; [reflexivity|]. split; [apply run_ok; by vm_compute|].
  split; by vm_compute.
Qed.

(** C8, amended: with the running flag cleared the loop ends without
    doing anything more, so no new cycle starts; a flag that is cleared
    when a cycle starts, or that a signal clears during the cycle, is
    still cleared when the cycle ends, so that the loop ends there, after
    the cycle in progress has run the steps it still had ahead; and when
    the flag is cleared at the check that follows the work of a cycle, the
    cycle ends in that very state, without the interval sleep. *)
Theorem cleared_flag_ends_loop (env : Env) (self : VPNMonitor) (prefix : str)
    (st : State) :
  (forall fuel, running st = false ->
                monitor_loop env self prefix fuel st = Some (Ok tt, st)) /\
  (running st = false \/
   (exists n, (calls st <= n < calls (cycle env self prefix st).2)%nat /\
              signals env n = true) ->
   running (cycle env self prefix st).2 = false) /\
  (forall fuel, running st = true ->
                running (cycle env self prefix st).2 = false ->
                monitor_loop env self prefix (S fuel) st
                = Some (Ok tt, (cycle env self prefix st).2)) /\
  (forall st1, cycle_work env self prefix st = (Ok tt, st1) ->
               running st1 = false ->
               cycle env self prefix st = (Ok Continue, st1)).
Proof.
  split; [|split; [|split]].
  - intros fuel. apply monitor_loop_stopped.
  - pose proof (cycle_advances env self prefix st) as (_ & Hmono & Hsig).
    intros [Hstop | (n & Hn & Hs)].
    + destruct (running (cycle env self prefix st).2); [|done].
      specialize (Hmono eq_refl). congruence.
    + by apply (Hsig n).
  - intros fuel Hrun Hstop. cbn [monitor_loop]. rewrite Hrun.
    destruct (cycle_catches env self prefix st) as (c & st' & Hc).
    rewrite Hc in *. simpl in Hstop.
    destruct c; [|done]. by apply monitor_loop_stopped.
  - intros st1 Hwork Hstop.
    unfold cycle, cycle_body, bind. rewrite Hwork.
    unfold cycle_wait, bind, get. by rewrite Hstop.
Qed.

(** C9: an exception other than [KeyboardInterrupt] that leaves the body
    of a cycle is caught: the cycle ends with the five-second pause and
    asks for another pass, the handler itself leaves the running flag as
    it was (only a signal delivered during the pause clears it), and the
    loop goes on from the state after the pause. With the flag still set
    there, the loop runs another cycle: that cycle starts with the status
    poll, what the loop returns is what the [while] statement makes of that
    cycle, and it returns right after it when the cycle ends with the flag
    cleared. When the loop does end it returns normally, and either the
    running flag is cleared or the last cycle met a [KeyboardInterrupt];
    and with the flag set, no signal delivered and no call cut short by a
    [KeyboardInterrupt], the loop does not end, however many cycles it is
    given and whatever exceptions they raise. *)
Theorem loop_exception_resumes (env : Env) (self : VPNMonitor) (prefix : str) :
  (forall st e st1,
      cycle_body env self prefix st = (Raise e, st1) ->
      e <> KeyboardInterrupt ->
      let st2 := after_call env (EvSleep 5) st1 in
      cycle env self prefix st = (Ok Continue, st2) /\
      trace st2 = trace st1 ++ [EvSleep 5] /\
      running st2 = running st1 && negb (signals env (calls st1)) /\
      (forall fuel, running st = true ->
                    monitor_loop env self prefix (S fuel) st
                    = monitor_loop env self prefix fuel st2) /\
      (running st = true -> running st2 = true ->
       (exists rest,
           trace (cycle env self prefix st2).2 = trace st2 ++ poll :: rest) /\
       (forall fuel,
           monitor_loop env self prefix (S (S fuel)) st
           = loop_after env self prefix fuel (cycle env self prefix st2)) /\
       (running (cycle env self prefix st2).2 = false ->
        forall fuel,
          monitor_loop env self prefix (S (S fuel)) st
          = Some (Ok tt, (cycle env self prefix st2).2))))
  /\ (forall fuel st r st',
         monitor_loop env self prefix fuel st = Some (r, st') ->
         r = Ok tt /\
         (running st' = false \/
          exists st0,
            cycle_body env self prefix st0 = (Raise KeyboardInterrupt, st')))
  /\ (forall st,
         running st = true ->
         uninterrupted env ->
         (forall n, (calls st <= n)%nat -> signals env n = false) ->
         forall fuel, monitor_loop env self prefix fuel st = None).
Proof.
  split; [|split].
  - intros st e st1 Hbody Hne st2.
    pose proof (cycle_handles env self prefix st e st1 Hbody Hne) as Hc.
    assert (Hstep : forall fuel, running st = true ->
                      monitor_loop env self prefix (S fuel) st
                      = monitor_loop env self prefix fuel st2).
    { intros fuel Hrun. cbn [monitor_loop]. by rewrite Hrun, Hc. }
    split; [done|]. split; [apply after_call_trace|].
    split; [apply after_call_running|]. split; [done|].
    intros Hrun Hrun2.
    assert (Hnext : forall fuel,
               monitor_loop env self prefix (S (S fuel)) st
               = loop_after env self prefix fuel (cycle env self prefix st2)).
    { intros fuel. rewrite Hstep by done. cbn [monitor_loop].
      rewrite Hrun2. unfold loop_after.
      by destruct (cycle env self prefix st2) as [[[|]|e'] st3]. }
    split; [|split; [done|]].
    + pose proof (cycle_from_poll env self prefix grows (grows_blocking env)
                    grows_set_stdin grows_set_reconnect_count st2)
        as [rest Hrest].
      exists rest. rewrite Hrest, after_call_trace.
      by rewrite <- (assoc_L (++)).
    + intros Hstop fuel. rewrite Hnext.
      destruct (cycle_catches env self prefix st2) as (c & st3 & Hc2).
      rewrite Hc2 in *. simpl in Hstop. unfold loop_after.
      destruct c; [|done]. by apply monitor_loop_stopped.
  - induction fuel as [|fuel IH]; intros st r st'.
    + simpl. destruct (running st) eqn:Hrun; [done|].
      intros [= <- <-]. by split; [|left].
    + cbn [monitor_loop]. destruct (running st) eqn:Hrun.
      2:{ intros [= <- <-]. by split; [|left]. }
      unfold cycle.
      destruct (cycle_body env self prefix st) as [[[]|e] st1] eqn:Hbody.
      * apply IH.
      * destruct e; simpl; unfold bind; rewrite ?sleep_5; try apply IH.
        intros [= <- <-]. split; [done|]. right. by exists st.
  - intros st Hrun Hcalm Hno fuel. by apply monitor_loop_forever.
Qed.

(** ** The statements on the sample run *)

Lemma sample_bridge_answers : bridge_answers sample_env.
Proof.
  intros t e. simpl. unfold sample_osascript.
  do 14 (destruct t as [|t]; [discriminate|]). discriminate.
Defined.

Example token_examples :
  accepted (lit "042018") = true /\
  rejected (lit "12345") /\ rejected (lit "abcdef") /\
  rejected (lit "1234567").
Proof. by vm_compute. Qed.

(** Started at tick 4, the polls are made at ticks 7 and 9: the first
    finds [GET_CONFIG], the second [CONNECTED]. *)
Lemma connect_vpn_polls_witness :
  (_connect_vpn sample_env (lit "vpn") (lit "pw042018") (looping [] 4)).1
  = Ok true.
Proof.
  destruct (connect_vpn_polls sample_env (lit "vpn") (lit "pw042018")
              (looping [] 4) sample_bridge_answers)
    as (b & st' & Hrun & Hiff & _).
  rewrite Hrun. simpl. f_equal. apply Hiff.
  exists 1%nat. split; [lia|]. split; [by vm_compute|].
  intros j Hj. assert (j = 0%nat) as -> by lia. by vm_compute.
Defined.

(** Started at tick 6, the polls are made at ticks 7, 9, 11 and 13, and
    the fourth finds [EXITING]. *)
Lemma disconnect_vpn_polls_witness :
  (_disconnect_vpn sample_env (lit "vpn") (looping [] 6)).1 = Ok true.
Proof.
  destruct (disconnect_vpn_polls sample_env (lit "vpn") (looping [] 6)
              sample_bridge_answers)
    as (b & st' & Hrun & Hiff & _).
  rewrite Hrun. simpl. f_equal. apply Hiff.
  exists 3%nat. split; [lia|by vm_compute].
Defined.

Lemma get_yubikey_token_first_valid_witness :
  (_get_yubikey_token sample_env
     (looping [lit "12345"; lit "abcdef"; lit "1234567"; lit " 042018 ";
               lit "999999"] 0)).1 = Ok (lit "042018")
  /\ length (lit "042018") = 6%nat
  /\ Forall rejected [lit "12345"; lit "abcdef"].
Proof.
  split; [|split].
  - destruct (proj1 (get_yubikey_token_first_valid sample_env
                       (looping [lit "12345"; lit "abcdef"; lit "1234567";
                                 lit " 042018 "; lit "999999"] 0))
                [lit "12345"; lit "abcdef"; lit "1234567"] (lit " 042018 ")
                [lit "999999"])
      as (st' & Hrun & _).
    + reflexivity.
    + repeat constructor.
    + by vm_compute.
    + by rewrite Hrun.
  - apply (proj1 (proj2 (get_yubikey_token_first_valid sample_env
                           (looping [lit " 042018 "] 0)))
             (lit "042018")
             (_get_yubikey_token sample_env (looping [lit " 042018 "] 0)).2).
    apply run_ok. by vm_compute.
  - apply (proj2 (proj2 (get_yubikey_token_first_valid sample_env
                           (looping [lit "12345"; lit "abcdef"] 0)))
             EOFError
             (_get_yubikey_token sample_env
                (looping [lit "12345"; lit "abcdef"] 0)).2).
    apply run_raise. by vm_compute.
Defined.

(** The three kinds of cycle: at tick 9 the poll finds [CONNECTED]; at
    tick 0 it finds [EXITING], the token is typed at the second prompt and
    the connection comes up; at tick 1 it finds nothing and standard input
    is at its end. *)
Lemma reconnect_count_cycle_witness :
  reconnect_count
    (cycle sample_env sample_monitor (lit "pw")
       (mkState true 3 [] ∅ 9 [])).2 = 0
  /\ reconnect_count
       (cycle sample_env sample_monitor (lit "pw")
          (mkState true 3 [lit "12345"; lit " 042018 "] ∅ 0 [])).2 = 3 + 1
  /\ reconnect_count
       (cycle sample_env sample_monitor (lit "pw")
          (mkState true 3 [] ∅ 1 [])).2 = 3.
Proof.
  split; [|split].
  - apply (proj1 (reconnect_count_cycle sample_env sample_monitor (lit "pw")
                    (mkState true 3 [] ∅ 9 []))).
    eexists. apply run_ok. by vm_compute.
  - apply (proj1 (proj2 (reconnect_count_cycle sample_env sample_monitor
                           (lit "pw")
                           (mkState true 3 [lit "12345"; lit " 042018 "]
                                    ∅ 0 [])))).
    set (st := mkState true 3 [lit "12345"; lit " 042018 "] ∅ 0 []).
    set (st1 := (_get_vpn_status sample_env (lit "vpn") st).2).
    set (st2 := (_check_internet_connectivity sample_env st1).2).
    set (st3 := (_get_yubikey_token sample_env st2).2).
    exists EXITING, st1, st2, (lit "042018"), st3,
      (_connect_vpn sample_env (lit "vpn") (lit "pw" ++ lit "042018") st3).2.
    split; [apply run_ok; by vm_compute|]. split; [discriminate|].
    split; [apply run_ok; by vm_compute|].
    split; apply run_ok; by vm_compute.
  - apply (proj2 (proj2 (reconnect_count_cycle sample_env sample_monitor
                           (lit "pw") (mkState true 3 [] ∅ 1 [])))).
    + intros [st1 H]. vm_compute in H. discriminate H.
    + intros (status & st1 & st2 & token & st3 & st4 & H1 & _ & H2 & H3 & _).
      vm_compute in H1. injection H1 as <- <-.
      vm_compute in H2. injection H2 as <-.
      vm_compute in H3. discriminate H3.
Defined.

Lemma stored_prefix_round_trip_witness :
  (_get_stored_credentials sample_env (lit "vpn")
     (_store_credentials sample_env (lit "vpn") (lit "pw")
        (init_state [] ∅)).2).1 = Ok (Some (lit "pw"))
  /\ (_get_stored_credentials sample_env (lit "vpn") (init_state [] ∅)).1
     = Ok None
  /\ keyring (_store_credentials sample_env (lit "office") (lit "pw")
                (init_state [] ∅)).2 !! prefix_key (lit "vpn") = None
  /\ (_get_stored_credentials locked_env (lit "vpn")
        (init_state [] {[ prefix_key (lit "vpn") := lit "pw" ]})).1
     = Ok None.
Proof.
  split; [|split; [|split]].
  - apply (proj1 (stored_prefix_round_trip sample_env (lit "vpn")
                    (init_state [] ∅))).
    + apply run_ok. by vm_compute.
    + reflexivity.
  - apply (proj1 (proj2 (stored_prefix_round_trip sample_env (lit "vpn")
                           (init_state [] ∅)))).
    + by vm_compute.
    + intros e H. discriminate H.
  - apply (proj1 (proj2 (proj2 (stored_prefix_round_trip sample_env
                                   (lit "vpn") (init_state [] ∅))))).
    + discriminate.
    + by vm_compute.
  - apply (proj2 (proj2 (proj2 (stored_prefix_round_trip locked_env
                                   (lit "vpn")
                                   (init_state []
                                      {[ prefix_key (lit "vpn") := lit "pw" ]}))))
             (OtherException (lit "KeyringLocked"))); reflexivity.
Defined.

(** A signal during the poll at tick 0: the cycle runs to its end, skips
    the interval sleep, and the loop ends. *)
Lemma cleared_flag_ends_loop_witness :
  monitor_loop sample_env sample_monitor (lit "pw") 7 (init_state [] ∅)
  = Some (Ok tt, init_state [] ∅)
  /\ running (cycle signal_env sample_monitor (lit "pw")
                (looping [lit "12345"; lit " 042018 "] 0)).2 = false
  /\ monitor_loop signal_env sample_monitor (lit "pw") 1
       (looping [lit "12345"; lit " 042018 "] 0)
     = Some (Ok tt, (cycle signal_env sample_monitor (lit "pw")
                       (looping [lit "12345"; lit " 042018 "] 0)).2)
  /\ cycle signal_env sample_monitor (lit "pw") (looping [lit "12345"; lit " 042018 "] 0)
     = (Ok Continue,
        (cycle_work signal_env sample_monitor (lit "pw")
           (looping [lit "12345"; lit " 042018 "] 0)).2).
Proof.
  split; [|split; [|split]].
  - apply (proj1 (cleared_flag_ends_loop sample_env sample_monitor (lit "pw")
                    (init_state [] ∅))).
    reflexivity.
  - apply (proj1 (proj2 (cleared_flag_ends_loop signal_env sample_monitor
                           (lit "pw") (looping [lit "12345"; lit " 042018 "] 0)))).
    right. exists 0%nat. split; [|reflexivity].
    split; [simpl; lia|]. vm_compute. lia.
  - apply (proj1 (proj2 (proj2 (cleared_flag_ends_loop signal_env
                                   sample_monitor (lit "pw")
                                   (looping [lit "12345"; lit " 042018 "] 0))))).
    + reflexivity.
    + by vm_compute.
  - apply (proj2 (proj2 (proj2 (cleared_flag_ends_loop signal_env
                                   sample_monitor (lit "pw")
                                   (looping [lit "12345"; lit " 042018 "] 0))))).
    + apply run_ok. by vm_compute.
    + by vm_compute.
Defined.

(** Standard input at its end when the token is asked for: [EOFError]
    leaves the body of the first cycle, which ends with the pause. With a
    signal during the poll that opens the second cycle (tick 4), that
    cycle is run to its end, where the loop returns: the trace shows both
    cycles. With no signal at all the loop has not returned after five
    cycles. *)
Lemma loop_exception_resumes_witness :
  (cycle late_signal_env sample_monitor (lit "pw") (looping [] 0)
   = (Ok Continue,
      after_call late_signal_env (EvSleep 5)
        (cycle_body late_signal_env sample_monitor (lit "pw")
           (looping [] 0)).2)
   /\ running (after_call late_signal_env (EvSleep 5)
                 (cycle_body late_signal_env sample_monitor (lit "pw")
                    (looping [] 0)).2) = true)
  /\ (exists st',
         monitor_loop late_signal_env sample_monitor (lit "pw") 2
           (looping [] 0) = Some (Ok tt, st') /\
         trace st' = [poll; EvPing; EvInput; EvSleep 5;
                      poll; EvPing; EvInput; EvSleep 5] /\
         running st' = false /\
         (@Ok unit tt = Ok tt /\
          (running st' = false \/
           exists st0,
             cycle_body late_signal_env sample_monitor (lit "pw") st0
             = (Raise KeyboardInterrupt, st'))))
  /\ monitor_loop sample_env sample_monitor (lit "pw") 5 (looping [] 0)
     = None.
Proof.
  split; [|split].
  - destruct (proj1 (loop_exception_resumes late_signal_env sample_monitor
                       (lit "pw"))
                (looping [] 0) EOFError
                (cycle_body late_signal_env sample_monitor (lit "pw")
                   (looping [] 0)).2) as (Hc & _ & Hflag & _).
    + apply run_raise. by vm_compute.
    + discriminate.
    + split; [exact Hc|]. rewrite Hflag. by vm_compute.
  - destruct (proj1 (loop_exception_resumes late_signal_env sample_monitor
                       (lit "pw"))
                (looping [] 0) EOFError
                (cycle_body late_signal_env sample_monitor (lit "pw")
                   (looping [] 0)).2) as (_ & _ & _ & _ & Hnext).
    + apply run_raise. by vm_compute.
    + discriminate.
    + destruct Hnext as (_ & _ & Hends); [reflexivity|by vm_compute|].
      exists (cycle late_signal_env sample_monitor (lit "pw")
                (after_call late_signal_env (EvSleep 5)
                   (cycle_body late_signal_env sample_monitor (lit "pw")
                      (looping [] 0)).2)).2.
      split; [apply Hends; by vm_compute|].
      split; [by vm_compute|]. split; [by vm_compute|].
      apply (proj1 (proj2 (loop_exception_resumes late_signal_env
                             sample_monitor (lit "pw"))) 2%nat (looping [] 0)).
      apply Hends. by vm_compute.
  - apply (proj2 (proj2 (loop_exception_resumes sample_env sample_monitor
                           (lit "pw"))) (looping [] 0)).
    + reflexivity.
    + intros t. split; [apply sample_bridge_answers|discriminate].
    + reflexivity.
Defined.

Lemma empty_prefix_aborts_witness :
  start_monitoring sample_env sample_monitor 5 (init_state [] ∅)
  = Some (Ok tt,
          (_get_stored_credentials sample_env (lit "vpn")
             (init_state [] ∅)).2)
  /\ (test_connection sample_env sample_monitor
        (init_state [] {[ prefix_key (lit "vpn") := [] ]})).1 = Ok false.
Proof.
  split.
  - apply (empty_prefix_aborts sample_env sample_monitor (init_state [] ∅)
             _ None).
    + apply run_ok. by vm_compute.
    + by left.
  - destruct (empty_prefix_aborts sample_env sample_monitor
                (init_state [] {[ prefix_key (lit "vpn") := [] ]})
                (_get_stored_credentials sample_env (lit "vpn")
                   (init_state [] {[ prefix_key (lit "vpn") := [] ]})).2
                (Some [])) as (_ & Ht & _).
    + apply run_ok. by vm_compute.
    + by right.
    + by rewrite Ht.
Defined.

(** * Further properties *)

(** ** The list of configurations *)

Lemma char_not_in_str_in (c : ascii) (s : str) :
  c ∉ s -> str_in [c] s = false.
Proof.
  induction s as [|x s IH]; intros Hc; [done|].
  apply not_elem_of_cons in Hc as [Hx Hs].
  cbn [str_in]. rewrite startswith_char, bool_decide_eq_false_2 by done.
  by apply IH.
Qed.

Lemma char_unbordered (c : ascii) (k : nat) :
  (0 < k < length [c])%nat -> take k [c] <> drop (length [c] - k) [c].
Proof. simpl. lia. Qed.

Lemma replace_absent (c : ascii) (s : str) :
  c ∉ s -> replace s [c] [] = s.
Proof.
  intros Hc. unfold replace, split.
  by rewrite split_last by by apply char_not_in_str_in.
Qed.

Lemma replace_leading (c : ascii) (t : str) :
  c ∉ t -> replace ([c] ++ t) [c] [] = t.
Proof.
  intros Hc. unfold replace, split.
  rewrite (split_at_sep [c]) by (done || apply char_unbordered).
  by rewrite split_last by by apply char_not_in_str_in.
Qed.

Lemma replace_trailing (c : ascii) (t : str) :
  c ∉ t -> replace (t ++ [c]) [c] [] = t.
Proof.
  intros Hc. unfold replace, split.
  replace (t ++ [c]) with (t ++ [c] ++ []) by done.
  rewrite (split_chunk [c]) by
    (done || apply char_unbordered || by apply char_not_in_str_in).
  simpl. by rewrite !app_nil_r.
Qed.

Lemma not_in_join (c : ascii) (sep : str) (ps : list str) :
  c ∉ sep -> Forall (fun p => c ∉ p) ps -> c ∉ join sep ps.
Proof.
  intros Hsep Hps. induction Hps as [|p ps Hp Hps IH].
  - simpl. apply not_elem_of_nil.
  - destruct ps as [|p' ps]; [done|].
    cbn [join]. rewrite !not_elem_of_app. auto.
Qed.

Lemma comma_space_unbordered (k : nat) :
  (0 < k < length (lit ", "))%nat ->
  take k (lit ", ") <> drop (length (lit ", ") - k) (lit ", ").
Proof.
  change (length (lit ", ")) with 2%nat. intros Hk.
  assert (k = 1%nat) as -> by lia. by vm_compute.
Qed.

Lemma remove_braces (braced : bool) (ps : list str) :
  Forall piece_ok ps ->
  replace (replace (render_names braced ps) (lit "{") []) (lit "}") []
  = join (lit ", ") ps.
Proof.
  intros Hps.
  assert (Hl : "{"%char ∉ join (lit ", ") ps).
  { apply not_in_join.
    - by vm_compute; intros H; repeat (apply elem_of_cons in H as [H|H]; [done|]);
        apply elem_of_nil in H.
    - eapply Forall_impl; [exact Hps|]. by intros p (? & _). }
  assert (Hr : "}"%char ∉ join (lit ", ") ps).
  { apply not_in_join.
    - by vm_compute; intros H; repeat (apply elem_of_cons in H as [H|H]; [done|]);
        apply elem_of_nil in H.
    - eapply Forall_impl; [exact Hps|]. by intros p (_ & ? & _). }
  change (lit "{") with ["{"%char]. change (lit "}") with ["}"%char].
  destruct braced; unfold render_names.
  - change (lit "{") with ["{"%char]. change (lit "}") with ["}"%char].
    rewrite replace_leading.
    + by apply replace_trailing.
    + apply not_elem_of_app. split; [done|].
      intros H. apply elem_of_cons in H as [H|H]; [done|].
      by apply elem_of_nil in H.
  - rewrite (replace_absent "{"%char) by done. by apply replace_absent.
Qed.

Lemma parse_configurations_pieces (braced : bool) (ps : list str) :
  ps <> [] ->
  Forall piece_ok ps ->
  parse_configurations (render_names braced ps)
  = map (strip_chars [dquote]) (List.filter nonblank ps).
Proof.
  intros Hne Hps. unfold parse_configurations. cbv zeta.
  rewrite remove_braces by done.
  rewrite split_join; [done|done|apply comma_space_unbordered|done|].
  eapply Forall_impl; [exact Hps|]. by intros p (_ & _ & ?).
Qed.

Lemma lstrip_chars_head (chars s : str) :
  (forall c, head s = Some c -> c ∉ chars) -> lstrip_chars chars s = s.
Proof.
  destruct s as [|x s]; [done|]. intros H. cbn [lstrip_chars].
  by rewrite bool_decide_eq_false_2 by by apply H.
Qed.

Lemma strip_chars_bare (n : str) : bare n -> strip_chars [dquote] n = n.
Proof.
  intros [Hh Hl]. unfold strip_chars.
  rewrite (lstrip_chars_head _ n).
  2:{ intros c Hc Hin. apply list_elem_of_singleton in Hin as ->. congruence. }
  rewrite lstrip_chars_head; [apply reverse_involutive|].
  intros c Hc Hin. apply list_elem_of_singleton in Hin as ->.
  rewrite head_reverse in Hc. congruence.
Qed.

Lemma strip_chars_quoted (n : str) :
  bare n -> strip_chars [dquote] (quoted n) = n.
Proof.
  intros Hn. destruct n as [|x n]; [done|].
  rewrite <- (strip_chars_bare (x :: n) Hn) at 2.
  unfold strip_chars, quoted.
  change (lstrip_chars [dquote] (dquote :: (x :: n) ++ [dquote]))
    with (lstrip_chars [dquote] ((x :: n) ++ [dquote])).
  destruct Hn as [Hh Hl].
  rewrite (lstrip_chars_head _ ((x :: n) ++ [dquote])).
  2:{ intros c [= <-] Hin. apply list_elem_of_singleton in Hin as ->.
      by apply Hh. }
  rewrite (lstrip_chars_head _ (x :: n)).
  2:{ intros c [= <-] Hin. apply list_elem_of_singleton in Hin as ->.
      by apply Hh. }
  by rewrite reverse_snoc.
Qed.

Lemma nonblank_quoted (n : str) : nonblank (quoted n) = true.
Proof.
  unfold nonblank, quoted, strip, rstrip.
  apply negb_true_iff, bool_decide_eq_false_2.
  change (lstrip (dquote :: n ++ [dquote])) with (dquote :: n ++ [dquote]).
  rewrite reverse_cons, reverse_snoc.
  change (lstrip ((dquote :: reverse n) ++ [dquote]))
    with ((dquote :: reverse n) ++ [dquote]).
  rewrite reverse_snoc. done.
Qed.

Lemma piece_ok_quoted (n : str) : piece_ok n -> piece_ok (quoted n).
Proof.
  intros (Hl & Hr & Hsep). unfold quoted.
  split; [|split].
  - rewrite not_elem_of_cons, not_elem_of_app, not_elem_of_cons.
    split; [done|]. split; [done|]. split; [done|apply not_elem_of_nil].
  - rewrite not_elem_of_cons, not_elem_of_app, not_elem_of_cons.
    split; [done|]. split; [done|]. split; [done|apply not_elem_of_nil].
  - cbn [str_in]. change (startswith (dquote :: n ++ [dquote]) (lit ", "))
      with false. cbn [orb].
    clear Hl Hr. induction n as [|x n IH]; [done|].
    apply str_in_cons_false in Hsep as [Hno Hsep].
    cbn [app str_in]. rewrite (IH Hsep), orb_false_r.
    change (lit ", ") with [","%char; " "%char] in *.
    cbn [startswith] in *.
    destruct (bool_decide (","%char = x)); [|done].
    cbn [andb] in *. destruct n as [|y n]; [done|exact Hno].
Qed.

Lemma filter_all {A} (f : A -> bool) (l : list A) :
  Forall (fun x => f x = true) l -> List.filter f l = l.
Proof.
  induction 1 as [|x l Hx _ IH]; [done|]. simpl. by rewrite Hx, IH.
Qed.

Lemma map_id_on {A} (f : A -> A) (l : list A) :
  Forall (fun x => f x = x) l -> map f l = l.
Proof. induction 1 as [|x l Hx _ IH]; [done|]. simpl. by rewrite Hx, IH. Qed.

(** The call [_get_vpn_configurations] makes, with what it gets back. *)
Lemma get_vpn_configurations_run (env : Env) (st : State) (out : str) :
  osascript env (calls st) = Exit0 out ->
  (_get_vpn_configurations env st).1
  = Ok (match strip out with
        | [] => []
        | _ => parse_configurations (strip out)
        end).
Proof.
  intros Hout. unfold _get_vpn_configurations, _run_applescript, bind.
  rewrite blocking_eq, Hout. simpl. by destruct (strip out).
Qed.

(** X1: when the bridge fails or prints only white space,
    [_get_vpn_configurations] returns the empty list; otherwise, for an
    answer made of pieces separated by a comma and a space, with or
    without braces around the whole, it returns the pieces that are not
    blank, in order, each without the double quotes at its ends. *)
Theorem get_vpn_configurations_pieces (env : Env) (st : State) :
  (forall err, osascript env (calls st) = ExitNonzero err ->
               (_get_vpn_configurations env st).1 = Ok [])
  /\ (forall out, osascript env (calls st) = Exit0 out ->
                  strip out = [] ->
                  (_get_vpn_configurations env st).1 = Ok [])
  /\ (forall out braced ps,
         osascript env (calls st) = Exit0 out ->
         strip out = render_names braced ps ->
         ps <> [] ->
         Forall piece_ok ps ->
         (_get_vpn_configurations env st).1
         = Ok (map (strip_chars [dquote]) (List.filter nonblank ps))).
Proof.
  split; [|split].
  - intros err Herr. unfold _get_vpn_configurations, _run_applescript, bind.
    by rewrite blocking_eq, Herr.
  - intros out Hout Hblank. rewrite (get_vpn_configurations_run _ _ _ Hout).
    by rewrite Hblank.
  - intros out braced ps Hout Hrender Hne Hps.
    rewrite (get_vpn_configurations_run _ _ _ Hout), Hrender.
    destruct (render_names braced ps) eqn:E.
    + rewrite <- (parse_configurations_pieces braced ps Hne Hps). by rewrite E.
    + rewrite <- E. by rewrite parse_configurations_pieces.
Qed.

(** X2: configuration names come back as they are. For names without
    braces, without a comma followed by a space, and without a double
    quote at either end, [_get_vpn_configurations] returns exactly the
    names, both when the bridge prints them quoted inside braces and
    when it prints them bare (where a name must not be blank). *)
Theorem get_vpn_configurations_names (env : Env) (st : State) (out : str)
    (names : list str) :
  osascript env (calls st) = Exit0 out ->
  names <> [] ->
  Forall piece_ok names ->
  Forall bare names ->
  strip out = render_names true (map quoted names) \/
  (strip out = render_names false names /\
   Forall (fun n => nonblank n = true) names) ->
  (_get_vpn_configurations env st).1 = Ok names.
Proof.
  intros Hout Hne Hps Hbare [Hq | [Hb Hnb]].
  - rewrite (get_vpn_configurations_run _ _ _ Hout), Hq.
    assert (Hparse : parse_configurations (render_names true (map quoted names))
                     = names).
    { rewrite parse_configurations_pieces.
      - rewrite filter_all.
        + rewrite map_map. apply map_id_on.
          eapply Forall_impl; [exact Hbare|]. intros n. apply strip_chars_quoted.
        + apply Forall_map, Forall_forall. intros n _. apply nonblank_quoted.
      - by destruct names.
      - apply Forall_map. eapply Forall_impl; [exact Hps|].
        intros n. apply piece_ok_quoted. }
    by rewrite Hparse.
  - rewrite (get_vpn_configurations_run _ _ _ Hout), Hb.
    assert (Hparse : parse_configurations (render_names false names) = names).
    { rewrite parse_configurations_pieces by done.
      rewrite filter_all by done. apply map_id_on.
      eapply Forall_impl; [exact Hbare|]. intros n. apply strip_chars_bare. }
    rewrite Hparse.
    destruct (render_names false names) eqn:E; [|done].
    (* an empty answer would make the one name blank *)
    unfold render_names in E.
    destruct names as [|n [|n' names]]; [done| |].
    + simpl in E. subst n. apply Forall_inv in Hnb. by vm_compute in Hnb.
    + cbn [join] in E. apply app_eq_nil in E as [_ E]. discriminate E.
Qed.

(** ** What the operations leave alone *)

Global Instance same_keyring_preorder : PreOrder same_keyring.
Proof.
  split; [by intros st|].
  intros a b c Hab Hbc. unfold same_keyring in *. congruence.
Qed.

Global Instance same_stdin_preorder : PreOrder same_stdin.
Proof.
  split; [by intros st|].
  intros a b c Hab Hbc. unfold same_stdin in *. congruence.
Qed.

Lemma same_keyring_blocking env e : keeps same_keyring (blocking env e).
Proof. intros st. rewrite blocking_eq. apply after_call_keyring. Qed.

Lemma same_keyring_set_stdin l : keeps same_keyring (set_stdin l).
Proof. by intros st. Qed.

Lemma same_keyring_set_reconnect_count n :
  keeps same_keyring (set_reconnect_count n).
Proof. by intros st. Qed.

Lemma same_stdin_blocking env e : keeps same_stdin (blocking env e).
Proof. intros st. rewrite blocking_eq. apply after_call_stdin. Qed.

Section Untouched.

Variable env : Env.
Variable self : VPNMonitor.

Lemma keyring_cycle prefix st :
  keyring (cycle env self prefix st).2 = keyring st.
Proof.
  apply (keeps_cycle env same_keyring);
    auto using same_keyring_blocking, same_keyring_set_stdin,
      same_keyring_set_reconnect_count.
Qed.

Lemma keyring_monitor_loop prefix fuel st r st' :
  monitor_loop env self prefix fuel st = Some (r, st') ->
  keyring st' = keyring st.
Proof.
  revert st. induction fuel as [|fuel IH]; intros st; cbn [monitor_loop];
    destruct (running st); try done; try by intros [= _ <-].
  pose proof (keyring_cycle prefix st) as Hc.
  destruct (cycle env self prefix st) as [[[|]|e] st1]; simpl in Hc.
  - intros H. rewrite (IH _ H). done.
  - by intros [= _ <-].
  - by intros [= _ <-].
Qed.

Lemma keyring_get_stored_credentials cfg st :
  keyring (_get_stored_credentials env cfg st).2 = keyring st.
Proof.
  apply (keeps_get_stored_credentials env same_keyring);
    auto using same_keyring_blocking.
Qed.

Lemma keyring_test_connection st :
  keyring (test_connection env self st).2 = keyring st.
Proof.
  assert (H : keeps same_keyring (test_connection env self)); [|apply H].
  unfold test_connection.
  apply (keeps_bind same_keyring).
  - apply (keeps_get_stored_credentials env same_keyring).
    apply same_keyring_blocking.
  - intros [[|c p]|]; try apply (keeps_ret same_keyring).
    apply (keeps_bind same_keyring).
    + apply (keeps_get_yubikey_token env same_keyring);
        auto using same_keyring_blocking, same_keyring_set_stdin.
    + intros token. apply (keeps_connect_vpn env same_keyring).
      apply same_keyring_blocking.
Qed.

End Untouched.

(** X3: monitoring and testing only read the keychain. After
    [test_connection], after a monitor cycle, and after
    [start_monitoring] whenever it returns, the keychain holds what it
    held before, whatever the environment did. *)
Theorem monitor_never_writes_keychain (env : Env) (self : VPNMonitor)
    (st : State) :
  keyring (test_connection env self st).2 = keyring st /\
  (forall prefix, keyring (cycle env self prefix st).2 = keyring st) /\
  (forall fuel r st',
      start_monitoring env self fuel st = Some (r, st') ->
      keyring st' = keyring st).
Proof.
  split; [apply keyring_test_connection|]. split; [intros; apply keyring_cycle|].
  intros fuel r st'. unfold start_monitoring.
  pose proof (keyring_get_stored_credentials env (config_name self) st) as Hg.
  destruct (_get_stored_credentials env (config_name self) st)
    as [[[[|c p]|]|e] st1]; simpl in Hg; try by intros [= _ <-].
  simpl. intros H. apply keyring_monitor_loop in H. simpl in H. congruence.
Qed.

(** X4: [_connect_vpn], [_disconnect_vpn] and [_get_vpn_status] talk to
    the bridge and sleep, and nothing else: they read no line from
    standard input, leave the keychain and the reconnect counter as they
    were, and never set the running flag. *)
Theorem bridge_operations_frame (env : Env) (cfg password : str) (st : State) :
  (let st' := (_connect_vpn env cfg password st).2 in
   stdin st' = stdin st /\ keyring st' = keyring st /\
   reconnect_count st' = reconnect_count st /\
   (running st' = true -> running st = true)) /\
  (let st' := (_disconnect_vpn env cfg st).2 in
   stdin st' = stdin st /\ keyring st' = keyring st /\
   reconnect_count st' = reconnect_count st /\
   (running st' = true -> running st = true)) /\
  (let st' := (_get_vpn_status env cfg st).2 in
   stdin st' = stdin st /\ keyring st' = keyring st /\
   reconnect_count st' = reconnect_count st /\
   (running st' = true -> running st = true)).
Proof.
  assert (Hd : forall R, PreOrder R -> (forall e, keeps R (blocking env e)) ->
                         keeps R (_disconnect_vpn env cfg)).
  { intros R HR Hb. unfold _disconnect_vpn.
    apply (keeps_bind R); [by apply (keeps_run_applescript env R)|].
    intros _. by apply (keeps_disconnect_wait env R). }
  split; [|split]; cbv zeta.
  - split; [apply (keeps_connect_vpn env same_stdin (same_stdin_blocking env))|].
    split; [apply (keeps_connect_vpn env same_keyring
                     (same_keyring_blocking env))|].
    split; [apply (keeps_connect_vpn env same_count
                     (same_count_blocking env))|].
    apply (keeps_connect_vpn env (advances env) (advances_blocking env)).
  - split; [apply (Hd same_stdin _ (same_stdin_blocking env))|].
    split; [apply (Hd same_keyring _ (same_keyring_blocking env))|].
    split; [apply (Hd same_count _ (same_count_blocking env))|].
    apply (Hd (advances env) _ (advances_blocking env)).
  - split; [apply (keeps_get_vpn_status env same_stdin
                     (same_stdin_blocking env))|].
    split; [apply (keeps_get_vpn_status env same_keyring
                     (same_keyring_blocking env))|].
    split; [apply (keeps_get_vpn_status env same_count
                     (same_count_blocking env))|].
    apply (keeps_get_vpn_status env (advances env) (advances_blocking env)).
Qed.

(** ** The monitor loop as a whole *)

Section WholeLoop.

Variable env : Env.
Variable self : VPNMonitor.
Variable prefix : str.

Lemma cycle_count_nonneg st :
  0 <= reconnect_count st ->
  0 <= reconnect_count (cycle env self prefix st).2.
Proof.
  intros H. rewrite cycle_count_after_work.
  pose proof (cycle_work_count env self prefix st) as Hc. cbv zeta in Hc.
  destruct Hc as [[_ ->] | [[_ ->] | (_ & _ & ->)]]; lia.
Qed.

Lemma monitor_loop_count_nonneg fuel st r st' :
  monitor_loop env self prefix fuel st = Some (r, st') ->
  0 <= reconnect_count st ->
  0 <= reconnect_count st'.
Proof.
  revert st. induction fuel as [|fuel IH]; intros st; cbn [monitor_loop];
    destruct (running st); try done; try by intros [= _ <-].
  pose proof (cycle_count_nonneg st) as Hc.
  destruct (cycle env self prefix st) as [[[|]|e] st1]; simpl in Hc.
  - intros H H0. apply (IH _ H). auto.
  - intros [= _ <-]. auto.
  - intros [= _ <-]. auto.
Qed.

(** More fuel does not change what the loop returns. *)
Lemma monitor_loop_more_fuel fuel k st r :
  monitor_loop env self prefix fuel st = Some r ->
  monitor_loop env self prefix (fuel + k) st = Some r.
Proof.
  revert st. induction fuel as [|fuel IH]; intros st.
  - cbn [monitor_loop]. destruct (running st) eqn:Hrun; [done|].
    intros <-. by apply monitor_loop_stopped.
  - cbn [monitor_loop Nat.add]. destruct (running st); [|done].
    destruct (cycle env self prefix st) as [[[|]|e] st1]; [apply IH|done..].
Qed.

(** Every cycle starts with a call to the bridge, so time moves on. *)
Lemma cycle_ticks st : (calls st < calls (cycle env self prefix st).2)%nat.
Proof.
  pose proof (cycle_from_poll env self prefix (advances env)
                (advances_blocking env) (advances_set_stdin env)
                (advances_set_reconnect_count env) st) as (Hle & _).
  rewrite after_call_calls in Hle. lia.
Qed.

Lemma signal_ends_loop (d : nat) st n :
  (calls st <= n)%nat -> (n + 1 - calls st <= d)%nat ->
  signals env n = true ->
  exists fuel st',
    (fuel <= d)%nat /\
    monitor_loop env self prefix fuel st = Some (Ok tt, st').
Proof.
  revert st. induction d as [|d IH]; intros st Hn Hd Hsig; [lia|].
  destruct (running st) eqn:Hrun.
  2:{ exists 0%nat, st. split; [lia|]. by apply monitor_loop_stopped. }
  destruct (cycle_catches env self prefix st) as (c & st1 & Hc).
  pose proof (cycle_ticks st) as Hticks. rewrite Hc in Hticks. simpl in Hticks.
  pose proof (cycle_advances env self prefix st) as (_ & _ & Hseen).
  rewrite Hc in Hseen. simpl in Hseen.
  destruct c.
  2:{ exists 1%nat, st1. split; [lia|]. cbn [monitor_loop]. by rewrite Hrun, Hc. }
  destruct (decide (n < calls st1)%nat) as [Hpast|Hnot].
  - exists 1%nat, st1. split; [lia|]. cbn [monitor_loop].
    rewrite Hrun, Hc. rewrite (Hseen n); [done|lia|done].
  - destruct (IH st1) as (fuel & st' & Hfuel & Hloop); [lia|lia|done|].
    exists (S fuel), st'. split; [lia|]. cbn [monitor_loop].
    by rewrite Hrun, Hc.
Qed.

End WholeLoop.

(** X5: the reconnect counter is never negative. Started at zero or
    above, it is zero or above after every cycle and in the state in which
    the loop returns. *)
Theorem reconnect_count_never_negative (env : Env) (self : VPNMonitor)
    (prefix : str) (st : State) :
  0 <= reconnect_count st ->
  0 <= reconnect_count (cycle env self prefix st).2 /\
  (forall fuel r st',
      monitor_loop env self prefix fuel st = Some (r, st') ->
      0 <= reconnect_count st').
Proof.
  intros H. split; [by apply cycle_count_nonneg|].
  intros fuel r st' Hloop. by apply (monitor_loop_count_nonneg _ _ _ _ _ _ _ Hloop).
Qed.

(** X6: a shutdown signal ends the monitor loop when standard input is
    finite. With the lines still to be typed a finite list followed by
    end of input, so that every token prompt returns or raises
    [EOFError], and with every call to the outside world returning: if a
    signal is delivered during the call at tick [n], at or after the
    current tick, the loop returns normally after at most
    [n + 1 - calls st] cycles, whatever the bridge and the network answer
    and whatever those lines are. A user who goes on typing rejected lines
    without end keeps the prompt, and with it the monitor, alive: that run
    is outside the statement. *)
Theorem signal_stops_monitor (env : Env) (self : VPNMonitor) (prefix : str)
    (st : State) (n : nat) :
  (calls st <= n)%nat ->
  signals env n = true ->
  exists st',
    forall fuel, (n + 1 - calls st <= fuel)%nat ->
                 monitor_loop env self prefix fuel st = Some (Ok tt, st').
Proof.
  intros Hn Hsig.
  destruct (signal_ends_loop env self prefix (n + 1 - calls st) st n Hn
              ltac:(lia) Hsig) as (fuel0 & st' & Hle & Hloop).
  exists st'. intros fuel Hfuel.
  replace fuel with (fuel0 + (fuel - fuel0))%nat by lia.
  by apply monitor_loop_more_fuel.
Qed.

(** ** The keychain, the set-up and the test *)

(** X7: keychain entries of different configurations do not interfere,
    and the last prefix stored wins: a store for [other] leaves the entry
    of [cfg] as it was, whether or not the store succeeds, and after two
    successful stores for [cfg] a retrieval without a keychain error
    returns the second prefix. *)
Theorem store_credentials_isolated (env : Env) (cfg : str) (st : State) :
  (forall other prefix,
      other <> cfg ->
      keyring (_store_credentials env other prefix st).2 !! prefix_key cfg
      = keyring st !! prefix_key cfg)
  /\ (forall p1 p2 st1 st2,
         _store_credentials env cfg p1 st = (Ok tt, st1) ->
         _store_credentials env cfg p2 st1 = (Ok tt, st2) ->
         keyring_fault env (calls st2) = None ->
         (_get_stored_credentials env cfg st2).1 = Ok (Some p2)).
Proof.
  split.
  - intros other prefix Hne. rewrite store_credentials_run.
    destruct (keyring_fault env (calls st)); simpl.
    + by rewrite after_call_keyring.
    + rewrite ?after_call_keyring. apply lookup_insert_ne.
      intros Heq. by apply prefix_key_inj in Heq.
  - intros p1 p2 st1 st2 _ H2 Hok.
    rewrite store_credentials_run in H2.
    destruct (keyring_fault env (calls st1)); [done|].
    injection H2 as <-.
    rewrite get_stored_credentials_run. simpl in *. rewrite Hok.
    by rewrite lookup_insert_eq.
Qed.

Section SetUp.

Variable env : Env.
Variable self : VPNMonitor.

Lemma getpass_line line rest st :
  stdin st = line :: rest ->
  getpass env st = (Ok line, (set_stdin rest (after_call env EvInput st)).2).
Proof. intros H. unfold getpass. rewrite H. apply input_from_line. Qed.

End SetUp.

(** X8: [setup_credentials] stores exactly what was typed, and nothing
    when nothing was typed. On an empty line it returns [False] after the
    prompt alone, with the keychain untouched; on a non-empty line it
    stores the line, unstripped, under the configuration's entry and
    returns [True], so that a retrieval without a keychain error returns
    that line; when the keychain raises during the store the exception
    leaves [setup_credentials] and the keychain is unchanged. *)
Theorem setup_credentials_stores_typed (env : Env) (self : VPNMonitor)
    (st : State) (line : str) (rest : list str) :
  stdin st = line :: rest ->
  (line = [] ->
   exists st',
     setup_credentials env self st = (Ok false, st') /\
     keyring st' = keyring st /\ trace st' = trace st ++ [EvInput]) /\
  (line <> [] -> keyring_fault env (S (calls st)) = None ->
   exists st',
     setup_credentials env self st = (Ok true, st') /\
     keyring st' = <[prefix_key (config_name self) := line]> (keyring st) /\
     (keyring_fault env (calls st') = None ->
      (_get_stored_credentials env (config_name self) st').1
      = Ok (Some line))) /\
  (line <> [] ->
   forall e, keyring_fault env (S (calls st)) = Some e ->
   exists st',
     setup_credentials env self st = (Raise e, st') /\
     keyring st' = keyring st).
Proof.
  intros Hin.
  assert (Hcalls : calls (set_stdin rest (after_call env EvInput st)).2
                   = S (calls st)) by (simpl; apply after_call_calls).
  assert (Hkey : keyring (set_stdin rest (after_call env EvInput st)).2
                 = keyring st) by (simpl; apply after_call_keyring).
  split; [|split].
  - intros ->. unfold setup_credentials, bind.
    rewrite (getpass_line env [] rest st Hin).
    eexists. split; [reflexivity|]. split; [done|].
    simpl. apply after_call_trace.
  - intros Hne Hok. unfold setup_credentials, bind.
    rewrite (getpass_line env line rest st Hin).
    destruct line as [|c line]; [done|].
    rewrite store_credentials_run, Hcalls, Hok. simpl.
    eexists. split; [reflexivity|]. simpl.
    rewrite ?after_call_keyring. split; [done|].
    intros Hok'. rewrite get_stored_credentials_run. simpl in *.
    rewrite ?after_call_calls in *. rewrite Hok'.
    by rewrite lookup_insert_eq.
  - intros Hne e He. unfold setup_credentials, bind.
    rewrite (getpass_line env line rest st Hin).
    destruct line as [|c line]; [done|].
    rewrite store_credentials_run, Hcalls, He.
    eexists. split; [reflexivity|]. simpl.
    by rewrite ?after_call_keyring.
Qed.

Section Composed.

Variable env : Env.
Hypothesis answers : bridge_answers env.

(** [_connect_vpn] returns, and its calls start with the connect command,
    the two-second sleep and the credential entry. *)
Lemma connect_vpn_starts cfg password st :
  exists b st' rest,
    _connect_vpn env cfg password st = (Ok b, st') /\
    trace st' = trace st ++ connect_prelude cfg password ++ rest /\
    (b = true <->
     exists i, (i < 30)%nat /\ connect_polls env cfg st i = CONNECTED /\
               forall j, (j < i)%nat ->
                         connect_terminal (connect_polls env cfg st j) = false).
Proof.
  unfold _connect_vpn, bind.
  rewrite run_applescript_answers by done.
  rewrite sleep_nonneg by (unfold sleep_max; lia).
  rewrite run_applescript_answers by done.
  set (st3 := after_call env (EvOsascript (EnterPassword password)) _).
  assert (Hc3 : calls st3 = (calls st + 3)%nat).
  { unfold st3. rewrite !after_call_calls. lia. }
  assert (Htr3 : trace st3 = trace st ++ connect_prelude cfg password).
  { unfold st3. rewrite !after_call_trace. by rewrite <- !(assoc_L (++)). }
  pose proof (connect_wait_outcome env answers cfg 30 st3) as Hout.
  destruct (connect_wait env cfg 30 st3) as [r st'].
  assert (Hpolls : forall i, status_at env cfg (calls st3 + 2 * i)
                             = connect_polls env cfg st i).
  { intros i. unfold connect_polls. by rewrite Hc3. }
  destruct Hout as [(i & Hi & [Hterm Hfirst] & Hr & Htrace & _)
                   | (Hnone & Hr & Htrace & _)]; simpl in *; subst r.
  - eexists _, st', _. split; [reflexivity|]. split.
    { rewrite Htrace, Htr3. by rewrite <- !(assoc_L (++)). }
    rewrite Hpolls in *. split.
    + intros Hb. apply bool_decide_eq_true_1 in Hb.
      exists i. split; [done|]. split; [done|].
      intros j Hj. rewrite <- Hpolls. by apply Hfirst.
    + intros (i' & Hi' & Hcon & Hbefore). apply bool_decide_eq_true_2.
      destruct (decide (i = i')) as [->|Hne]; [done|].
      destruct (decide (i < i')%nat) as [Hlt|Hge].
      * rewrite (Hbefore i Hlt) in Hterm. done.
      * assert (Hlt : (i' < i)%nat) by lia.
        specialize (Hfirst i' Hlt). rewrite Hpolls in Hfirst.
        unfold connect_terminal in Hfirst. rewrite Hcon in Hfirst.
        by vm_compute in Hfirst.
  - eexists _, st', _. split; [reflexivity|]. split.
    { rewrite Htrace, Htr3. by rewrite <- !(assoc_L (++)). }
    split; [done|].
    intros (i & Hi & Hcon & _). specialize (Hnone i Hi).
    rewrite Hpolls in Hnone. unfold connect_terminal in Hnone.
    rewrite Hcon in Hnone. by vm_compute in Hnone.
Qed.

Lemma disconnect_vpn_starts cfg st :
  exists b st' rest,
    _disconnect_vpn env cfg st = (Ok b, st') /\
    trace st' = trace st ++ EvOsascript (Disconnect cfg) :: rest /\
    (b = true <->
     exists i, (i < 10)%nat /\ is_down (disconnect_polls env cfg st i) = true).
Proof.
  unfold _disconnect_vpn, bind.
  rewrite run_applescript_answers by done.
  set (st1 := after_call env (EvOsascript (Disconnect cfg)) _).
  assert (Hc1 : calls st1 = (calls st + 1)%nat).
  { unfold st1. rewrite !after_call_calls. lia. }
  assert (Htr1 : trace st1 = trace st ++ [EvOsascript (Disconnect cfg)]).
  { unfold st1. by rewrite !after_call_trace. }
  pose proof (disconnect_wait_outcome env answers cfg 10 st1) as Hout.
  destruct (disconnect_wait env cfg 10 st1) as [r st'].
  assert (Hpolls : forall i, status_at env cfg (calls st1 + 2 * i)
                             = disconnect_polls env cfg st i).
  { intros i. unfold disconnect_polls. by rewrite Hc1. }
  destruct Hout as [(i & Hi & [Hterm Hfirst] & Hr & Htrace & _)
                   | (Hnone & Hr & Htrace & _)]; simpl in *; subst r.
  - eexists _, st', _. split; [reflexivity|]. split.
    { rewrite Htrace, Htr1. by rewrite <- !(assoc_L (++)). }
    split; [|done]. intros _. exists i. by rewrite <- Hpolls.
  - eexists _, st', _. split; [reflexivity|]. split.
    { rewrite Htrace, Htr1. by rewrite <- !(assoc_L (++)). }
    split; [done|]. intros (i & Hi & Hdown).
    rewrite <- Hpolls, (Hnone i Hi) in Hdown. done.
Qed.

Lemma list_statuses_run configs st :
  exists st',
    list_statuses env configs st
    = (Ok (imap (fun i c => (c, status_at env c (calls st + i))) configs),
       st') /\
    trace st' = trace st ++ replicate (length configs) poll /\
    calls st' = (calls st + length configs)%nat.
Proof.
  revert st. induction configs as [|c configs IH]; intros st.
  - exists st. simpl. split; [done|]. split; [by rewrite app_nil_r|lia].
  - cbn [list_statuses]. unfold bind at 1.
    rewrite get_vpn_status_answers by done.
    destruct (IH (after_call env poll st)) as (st' & Hrun & Htr & Hc).
    unfold bind. rewrite Hrun. exists st'. split; [|split].
    + unfold ret. cbn [imap]. rewrite Nat.add_0_r. do 3 f_equal.
      apply imap_ext. intros i x _. simpl.
      rewrite after_call_calls. do 2 f_equal. lia.
    + rewrite Htr, after_call_trace. simpl. by rewrite <- (assoc_L (++)).
    + rewrite Hc, after_call_calls. simpl. lia.
Qed.

End Composed.

(** X9: [list_configurations] asks for the names once and then for the
    status of each configuration, once each and in order: the line it
    prints for the configuration at position [i] carries the status polled
    at its own tick, and with no configuration it makes no status query at
    all. *)
Theorem list_configurations_queries (env : Env) (st : State) :
  bridge_answers env ->
  let configs := configurations_at env (calls st) in
  exists st',
    list_configurations env st
    = (Ok (imap (fun i c => (c, status_at env c (calls st + 1 + i))) configs),
       st') /\
    trace st'
    = trace st ++ EvOsascript GetNames :: replicate (length configs) poll.
Proof.
  intros Hans configs.
  unfold list_configurations, _get_vpn_configurations, bind.
  rewrite run_applescript_answers by done.
  set (st1 := after_call env (EvOsascript GetNames) st).
  assert (Hconfigs :
    (match bridge_text (osascript env (calls st)) with
     | [] => ret []
     | _ => ret (parse_configurations (bridge_text (osascript env (calls st))))
     end) st1 = (Ok configs, st1)).
  { unfold configs, configurations_at.
    by destruct (bridge_text (osascript env (calls st))). }
  rewrite Hconfigs.
  destruct (list_statuses_run env Hans configs st1) as (st' & Hrun & Htr & _).
  exists st'. split.
  - rewrite Hrun. do 2 f_equal. apply imap_ext. intros i c _. simpl.
    unfold st1. rewrite after_call_calls. do 2 f_equal. lia.
  - rewrite Htr. unfold st1. rewrite after_call_trace.
    by rewrite <- (assoc_L (++)).
Qed.

(** X10: the stored prefix and the typed token reach the login dialog as
    one password, prefix first. With a non-empty stored prefix [p] and a
    first valid token among the typed lines, [test_connection] reads the
    keychain, prompts once for each line up to that token, and then runs
    the connect sequence with the password [p] followed by the stripped
    token; it returns what the polls of [_connect_vpn] decide. *)
Theorem test_connection_password (env : Env) (self : VPNMonitor) (st : State)
    (p : str) (pre : list str) (good : str) (post : list str) :
  bridge_answers env ->
  keyring st !! prefix_key (config_name self) = Some p ->
  p <> [] ->
  keyring_fault env (calls st) = None ->
  stdin st = pre ++ good :: post ->
  Forall rejected pre ->
  accepted good = true ->
  exists b st' rest,
    test_connection env self st = (Ok b, st') /\
    trace st'
    = trace st
      ++ [EvKeyringGet (service_name (config_name self)) (lit "prefix")]
      ++ replicate (S (length pre)) EvInput
      ++ connect_prelude (config_name self) (p ++ strip good)
      ++ rest /\
    stdin st' = post.
Proof.
  intros Hans Hkey Hp Hfault Hin Hpre Hgood.
  unfold test_connection, bind.
  rewrite get_stored_credentials_run, Hfault, Hkey.
  destruct p as [|c p]; [done|].
  set (st1 := after_call env _ st).
  unfold _get_yubikey_token.
  assert (Hin1 : stdin st1 = pre ++ good :: post)
    by (unfold st1; by rewrite after_call_stdin).
  rewrite Hin1.
  destruct (token_loop_accepts env pre good post st1 Hpre Hgood)
    as (st2 & Htok & Hin2 & Htr2).
  rewrite Htok.
  destruct (connect_vpn_starts env Hans (config_name self)
              ((c :: p) ++ strip good) st2) as (b & st' & rest & Hrun & Htr & _).
  exists b, st', rest. split; [done|]. split.
  - rewrite Htr, Htr2. unfold st1. rewrite after_call_trace.
    by rewrite <- !(assoc_L (++)).
  - pose proof (keeps_connect_vpn env same_stdin (same_stdin_blocking env)
                  (config_name self) ((c :: p) ++ strip good) st2) as Hs.
    rewrite Hrun in Hs. unfold same_stdin in Hs. simpl in Hs. congruence.
Qed.

(** ** The front ends of tunnelblick_vpn.py *)

(** X11: [connect_vpn] leaves a connected VPN alone and never submits an
    empty password. When the first poll finds [CONNECTED] nothing follows
    it: no prompt, no command. When it does not, the password is read;
    an empty line ends the function after the prompt, a non-empty line is
    passed to the connect sequence as typed, and the report is success
    exactly when a poll of that sequence finds [CONNECTED] before any
    poll finds [EXITING] or [DISCONNECTED]; at the end of input
    [EOFError] leaves the function. *)
Theorem connect_vpn_guards (env : Env) (cfg : str) (st : State) :
  bridge_answers env ->
  (status_at env cfg (calls st) = CONNECTED ->
   connect_vpn env cfg st = (Ok AlreadyConnected, after_call env poll st)) /\
  (status_at env cfg (calls st) <> CONNECTED ->
   forall rest, stdin st = [] :: rest ->
   exists st',
     connect_vpn env cfg st = (Ok EmptyPassword, st') /\
     trace st' = trace st ++ [poll; EvInput]) /\
  (status_at env cfg (calls st) <> CONNECTED ->
   forall password rest, stdin st = password :: rest -> password <> [] ->
   exists r st' more,
     connect_vpn env cfg st = (Ok r, st') /\
     trace st' = trace st ++ [poll; EvInput]
                          ++ connect_prelude cfg password ++ more /\
     (r = ConnectSucceeded \/ r = ConnectFailed) /\
     (r = ConnectSucceeded <->
      exists i, (i < 30)%nat /\
                status_at env cfg (calls st + 5 + 2 * i) = CONNECTED /\
                forall j, (j < i)%nat ->
                  connect_terminal (status_at env cfg (calls st + 5 + 2 * j))
                  = false)) /\
  (status_at env cfg (calls st) <> CONNECTED ->
   stdin st = [] ->
   (connect_vpn env cfg st).1 = Raise EOFError).
Proof.
  intros Hans.
  split; [|split; [|split]].
  - intros Hcon. unfold connect_vpn, bind.
    rewrite get_vpn_status_answers by done.
    by rewrite bool_decide_eq_true_2.
  - intros Hcon rest Hin. unfold connect_vpn, bind.
    rewrite get_vpn_status_answers by done.
    rewrite bool_decide_eq_false_2 by done.
    rewrite (getpass_line env [] rest)
      by (by rewrite after_call_stdin).
    eexists. split; [reflexivity|]. simpl.
    rewrite !after_call_trace. by rewrite <- (assoc_L (++)).
  - intros Hcon password rest Hin Hne. unfold connect_vpn, bind.
    rewrite get_vpn_status_answers by done.
    rewrite bool_decide_eq_false_2 by done.
    rewrite (getpass_line env password rest)
      by (by rewrite after_call_stdin).
    destruct password as [|c password]; [done|].
    set (st2 := (set_stdin rest (after_call env EvInput
                                   (after_call env poll st))).2).
    assert (Hc2 : calls st2 = (calls st + 2)%nat).
    { unfold st2. simpl. rewrite !after_call_calls. lia. }
    assert (Htr2 : trace st2 = trace st ++ [poll; EvInput]).
    { unfold st2. simpl. rewrite !after_call_trace.
      by rewrite <- (assoc_L (++)). }
    destruct (connect_vpn_starts env Hans cfg (c :: password) st2)
      as (b & st' & more & Hrun & Htr & Hiff).
    rewrite Hrun.
    exists (if b then ConnectSucceeded else ConnectFailed), st', more.
    split; [done|]. split.
    { rewrite Htr, Htr2. by rewrite <- !(assoc_L (++)). }
    split; [destruct b; auto|].
    assert (Hpolls : forall i, connect_polls env cfg st2 i
                               = status_at env cfg (calls st + 5 + 2 * i)).
    { intros i. unfold connect_polls. rewrite Hc2. f_equal. lia. }
    split.
    + intros Hr. destruct b; [|done].
      destruct (proj1 Hiff eq_refl) as (i & Hi & Hc & Hb).
      exists i. split; [done|]. rewrite <- Hpolls. split; [done|].
      intros j Hj. rewrite <- Hpolls. by apply Hb.
    + intros (i & Hi & Hc & Hb).
      assert (b = true) as ->; [|done].
      apply Hiff. exists i. split; [done|]. rewrite Hpolls. split; [done|].
      intros j Hj. rewrite Hpolls. by apply Hb.
  - intros Hcon Hin. unfold connect_vpn, bind.
    rewrite get_vpn_status_answers by done.
    rewrite bool_decide_eq_false_2 by done.
    unfold getpass. rewrite after_call_stdin, Hin.
    by rewrite input_from_eof.
Qed.

(** X12: [disconnect_vpn] sends the disconnect command only to a VPN
    that is not already down. When the first poll finds [EXITING] or
    [DISCONNECTED] that poll is all it does; otherwise the disconnect
    command follows, and the report is success exactly when one of the
    ten polls after it finds [EXITING] or [DISCONNECTED]. *)
Theorem disconnect_vpn_guards (env : Env) (cfg : str) (st : State) :
  bridge_answers env ->
  (is_down (status_at env cfg (calls st)) = true ->
   disconnect_vpn env cfg st
   = (Ok AlreadyDisconnected, after_call env poll st)) /\
  (is_down (status_at env cfg (calls st)) = false ->
   exists r st' more,
     disconnect_vpn env cfg st = (Ok r, st') /\
     trace st' = trace st ++ poll :: EvOsascript (Disconnect cfg) :: more /\
     (r = DisconnectSucceeded \/ r = DisconnectFailed) /\
     (r = DisconnectSucceeded <->
      exists i, (i < 10)%nat /\
                is_down (status_at env cfg (calls st + 2 + 2 * i)) = true)).
Proof.
  intros Hans.
  assert (Hor : forall s, str_in DISCONNECTED s || str_in EXITING s = is_down s)
    by (intros s; unfold is_down; apply orb_comm).
  split.
  - intros Hdown. unfold disconnect_vpn, bind.
    rewrite get_vpn_status_answers by done. by rewrite Hor, Hdown.
  - intros Hup. unfold disconnect_vpn, bind.
    rewrite get_vpn_status_answers by done. rewrite Hor, Hup.
    set (st1 := after_call env poll st).
    destruct (disconnect_vpn_starts env Hans cfg st1)
      as (b & st' & more & Hrun & Htr & Hiff).
    rewrite Hrun.
    exists (if b then DisconnectSucceeded else DisconnectFailed), st', more.
    split; [done|]. split.
    { rewrite Htr. unfold st1. rewrite after_call_trace.
      by rewrite <- (assoc_L (++)). }
    split; [destruct b; auto|].
    assert (Hpolls : forall i, disconnect_polls env cfg st1 i
                               = status_at env cfg (calls st + 2 + 2 * i)).
    { intros i. unfold disconnect_polls, st1. rewrite after_call_calls.
      f_equal. lia. }
    split.
    + intros Hr. destruct b; [|done].
      destruct (proj1 Hiff eq_refl) as (i & Hi & Hd).
      exists i. by rewrite <- Hpolls.
    + intros (i & Hi & Hd). assert (b = true) as ->; [|done].
      apply Hiff. exists i. by rewrite Hpolls.
Qed.

(** ** Bounded waiting *)

Lemma slept_app evs evs' : slept (evs ++ evs') = slept evs + slept evs'.
Proof.
  induction evs as [|e evs IH]; [done|].
  destruct e; simpl; rewrite IH; lia.
Qed.

Lemma bridge_calls_app evs evs' :
  bridge_calls (evs ++ evs') = (bridge_calls evs + bridge_calls evs')%nat.
Proof.
  induction evs as [|e evs IH]; [done|].
  destruct e; simpl; rewrite IH; lia.
Qed.

Lemma spent_refl st : spent 0 0 st st.
Proof. exists []. rewrite app_nil_r. simpl. split; [done|]. split; lia. Qed.

Lemma spent_trans k1 b1 k2 b2 st1 st2 st3 :
  spent k1 b1 st1 st2 -> spent k2 b2 st2 st3 ->
  spent (k1 + k2) (b1 + b2) st1 st3.
Proof.
  intros (e1 & H1 & Hs1 & Hb1) (e2 & H2 & Hs2 & Hb2).
  exists (e1 ++ e2). split; [by rewrite H2, H1, <- (assoc_L (++))|].
  rewrite slept_app, bridge_calls_app. split; lia.
Qed.

Lemma spent_more k b k' b' st st' :
  spent k b st st' -> k <= k' -> (b <= b')%nat -> spent k' b' st st'.
Proof.
  intros (evs & H & Hs & Hb) Hk Hbb. exists evs. split; [done|]. split; lia.
Qed.

Section Bounded.

Variable env : Env.

Lemma spent_run_applescript s st :
  spent 0 1 st (_run_applescript env s st).2.
Proof.
  exists [EvOsascript s]. unfold _run_applescript, bind.
  rewrite blocking_eq. split; [|simpl; split; lia].
  destruct (osascript env (calls st)); simpl; apply after_call_trace.
Qed.

Lemma spent_get_vpn_status cfg st :
  spent 0 1 st (_get_vpn_status env cfg st).2.
Proof.
  pose proof (spent_run_applescript GetProperties st) as H.
  unfold _get_vpn_status, bind.
  by destruct (_run_applescript env GetProperties st) as [[r|e] st1].
Qed.

Lemma spent_sleep seconds st :
  0 <= seconds -> spent seconds 0 st (sleep env seconds st).2.
Proof.
  intros H. unfold sleep.
  destruct (_ || _); [eapply spent_more; [apply spent_refl|lia..]|].
  destruct (Z.ltb_spec seconds 0); [lia|].
  exists [EvSleep seconds]. unfold bind. rewrite blocking_eq. simpl.
  split; [apply after_call_trace|]. split; lia.
Qed.

Lemma spent_connect_wait cfg n st :
  spent (Z.of_nat n) n st (connect_wait env cfg n st).2.
Proof.
  revert st. induction n as [|n IH]; intros st; [apply spent_refl|].
  cbn [connect_wait]. unfold bind at 1.
  pose proof (spent_get_vpn_status cfg st) as Hp.
  destruct (_get_vpn_status env cfg st) as [[status|e] st1]; simpl in Hp.
  2:{ simpl. eapply spent_more; [exact Hp|lia..]. }
  destruct (bool_decide _); [eapply spent_more; [exact Hp|lia..]|].
  destruct (is_down status); [eapply spent_more; [exact Hp|lia..]|].
  unfold bind. pose proof (spent_sleep 1 st1 ltac:(lia)) as Hs.
  destruct (sleep env 1 st1) as [[[]|e] st2]; simpl in Hs.
  - eapply spent_more; [exact (spent_trans _ _ _ _ _ _ _ Hp
                                 (spent_trans _ _ _ _ _ _ _ Hs (IH st2)))|lia..].
  - simpl. eapply spent_more; [exact (spent_trans _ _ _ _ _ _ _ Hp Hs)|lia..].
Qed.

Lemma spent_disconnect_wait cfg n st :
  spent (Z.of_nat n) n st (disconnect_wait env cfg n st).2.
Proof.
  revert st. induction n as [|n IH]; intros st; [apply spent_refl|].
  cbn [disconnect_wait]. unfold bind at 1.
  pose proof (spent_get_vpn_status cfg st) as Hp.
  destruct (_get_vpn_status env cfg st) as [[status|e] st1]; simpl in Hp.
  2:{ simpl. eapply spent_more; [exact Hp|lia..]. }
  destruct (is_down status); [eapply spent_more; [exact Hp|lia..]|].
  unfold bind. pose proof (spent_sleep 1 st1 ltac:(lia)) as Hs.
  destruct (sleep env 1 st1) as [[[]|e] st2]; simpl in Hs.
  - eapply spent_more; [exact (spent_trans _ _ _ _ _ _ _ Hp
                                 (spent_trans _ _ _ _ _ _ _ Hs (IH st2)))|lia..].
  - simpl. eapply spent_more; [exact (spent_trans _ _ _ _ _ _ _ Hp Hs)|lia..].
Qed.

End Bounded.

(** X14: connecting and disconnecting wait a bounded time, whatever the
    environment does, including a bridge that raises. [_connect_vpn]
    sleeps at most 32 seconds in all and calls the bridge at most 32
    times; [_disconnect_vpn] sleeps at most 10 seconds and calls the
    bridge at most 11 times. *)
Theorem waiting_is_bounded (env : Env) (cfg password : str) (st : State) :
  spent 32 32 st (_connect_vpn env cfg password st).2 /\
  spent 10 11 st (_disconnect_vpn env cfg st).2.
Proof.
  split.
  - unfold _connect_vpn, bind.
    pose proof (spent_run_applescript env (Connect cfg) st) as H1.
    destruct (_run_applescript env (Connect cfg) st) as [[r1|e] st1];
      simpl in H1; [|simpl; eapply spent_more; [exact H1|lia..]].
    pose proof (spent_sleep env 2 st1 ltac:(lia)) as H2.
    destruct (sleep env 2 st1) as [[[]|e] st2]; simpl in H2;
      [|simpl; eapply spent_more;
         [exact (spent_trans _ _ _ _ _ _ _ H1 H2)|lia..]].
    pose proof (spent_run_applescript env (EnterPassword password) st2) as H3.
    destruct (_run_applescript env (EnterPassword password) st2)
      as [[r3|e] st3]; simpl in H3;
      [|simpl; eapply spent_more;
         [exact (spent_trans _ _ _ _ _ _ _ H1
                   (spent_trans _ _ _ _ _ _ _ H2 H3))|lia..]].
    pose proof (spent_connect_wait env cfg 30 st3) as H4.
    eapply spent_more;
      [exact (spent_trans _ _ _ _ _ _ _ H1
                (spent_trans _ _ _ _ _ _ _ H2
                   (spent_trans _ _ _ _ _ _ _ H3 H4)))|lia..].
  - unfold _disconnect_vpn, bind.
    pose proof (spent_run_applescript env (Disconnect cfg) st) as H1.
    destruct (_run_applescript env (Disconnect cfg) st) as [[r1|e] st1];
      simpl in H1; [|simpl; eapply spent_more; [exact H1|lia..]].
    pose proof (spent_disconnect_wait env cfg 10 st1) as H2.
    eapply spent_more; [exact (spent_trans _ _ _ _ _ _ _ H1 H2)|lia..].
Qed.

(** ** Cycles that ask the user nothing *)

Section QuietCycles.

Variable env : Env.
Variable self : VPNMonitor.
Variable prefix : str.
Hypothesis answers : bridge_answers env.



End QuietCycles.


(** A length that [time.sleep] refuses. *)
Lemma sleep_negative env seconds st :
  seconds < 0 ->
  exists e, sleep env seconds st = (Raise e, st) /\ e <> KeyboardInterrupt.
Proof.
  intros H. unfold sleep.
  destruct (_ || _); [by eexists|].
  destruct (Z.ltb_spec seconds 0); [by eexists|lia].
Qed.

(** X16: a negative check interval turns the monitor into a five-second
    poller. Whatever the work of a cycle was (the poll alone, the probe
    of an unreachable network, or a reconnect attempt), when it is over
    with the running flag still set, [time.sleep] refuses the negative
    length, the handler at the loop boundary catches the exception, and
    the cycle ends with the five-second pause in place of the interval
    sleep; the same pause ends a cycle whose work raised an exception
    other than [KeyboardInterrupt]. *)
Theorem negative_interval_pauses (env : Env) (self : VPNMonitor)
    (prefix : str) (st st1 : State) (r : result unit) :
  check_interval self < 0 ->
  cycle_work env self prefix st = (r, st1) ->
  r <> Raise KeyboardInterrupt ->
  (r = Ok tt -> running st1 = true) ->
  cycle env self prefix st = (Ok Continue, after_call env (EvSleep 5) st1) /\
  trace (after_call env (EvSleep 5) st1) = trace st1 ++ [EvSleep 5].
Proof.
  intros Hint Hwork Hr Hrun. split; [|apply after_call_trace].
  destruct r as [[]|e].
  - destruct (sleep_negative env _ st1 Hint) as (e & Hs & He).
    apply (cycle_handles env self prefix st e); [|done].
    unfold cycle_body, bind. rewrite Hwork.
    unfold cycle_wait, bind, get. by rewrite Hrun, Hs.
  - apply (cycle_handles env self prefix st e); [|congruence].
    unfold cycle_body, bind. by rewrite Hwork.
Qed.

(** ** The shape of a status *)

Section StatusShape.

Lemma elem_of_lstrip (x : ascii) (s : str) : x ∈ lstrip s -> x ∈ s.
Proof.
  induction s as [|c s IH]; [done|]. cbn [lstrip].
  destruct (isspace c); [|done]. intros H. apply elem_of_cons. auto.
Qed.

Lemma elem_of_strip (x : ascii) (s : str) : x ∈ strip s -> x ∈ s.
Proof.
  unfold strip, rstrip. intros H.
  apply (proj1 (elem_of_reverse _ _)) in H. apply elem_of_lstrip in H.
  apply (proj1 (elem_of_reverse _ _)) in H. by apply elem_of_lstrip.
Qed.

Lemma lstrip_lstrip (s : str) : lstrip (lstrip s) = lstrip s.
Proof.
  induction s as [|c s IH]; [done|]. cbn [lstrip].
  destruct (isspace c) eqn:E; [done|]. cbn [lstrip]. by rewrite E.
Qed.

Lemma lstrip_snoc (l : str) (x : ascii) :
  isspace x = false -> exists w, lstrip (l ++ [x]) = w ++ [x].
Proof.
  intros Hx. induction l as [|c l [w IH]].
  - exists []. simpl. by rewrite Hx.
  - cbn [app lstrip]. destruct (isspace c).
    + by exists w.
    + by exists (c :: l).
Qed.

Lemma rstrip_rstrip (s : str) : rstrip (rstrip s) = rstrip s.
Proof. unfold rstrip. by rewrite reverse_involutive, lstrip_lstrip. Qed.

Lemma lstrip_rstrip (s : str) :
  lstrip s = s -> lstrip (rstrip s) = rstrip s.
Proof.
  destruct s as [|x s]; [done|]. cbn [lstrip].
  destruct (isspace x) eqn:Hx.
  - intros H. exfalso.
    assert (Hlen : (length (lstrip s) <= length s)%nat).
    { clear. induction s as [|c s IH]; [done|]. cbn [lstrip].
      destruct (isspace c); simpl; lia. }
    rewrite H in Hlen. simpl in Hlen. lia.
  - intros _. unfold rstrip. rewrite reverse_cons.
    destruct (lstrip_snoc (reverse s) x Hx) as [w ->].
    rewrite reverse_snoc. cbn [lstrip]. by rewrite Hx.
Qed.

Lemma strip_strip (s : str) : strip (strip s) = strip s.
Proof.
  unfold strip.
  rewrite (lstrip_rstrip (lstrip s)) by apply lstrip_lstrip.
  apply rstrip_rstrip.
Qed.

(** Where a search for one character ends. *)
Lemma find_aux_char_spec (c : ascii) (s : str) (i : nat) :
  match find_aux s [c] i with
  | Some j => (i <= j)%nat /\ c ∉ take (j - i) s
  | None => c ∉ s
  end.
Proof.
  revert i. induction s as [|x s IH]; intros i.
  - simpl. apply not_elem_of_nil.
  - cbn [find_aux]. rewrite startswith_char.
    destruct (bool_decide (c = x)) eqn:E.
    + split; [lia|]. rewrite Nat.sub_diag. apply not_elem_of_nil.
    + apply bool_decide_eq_false_1 in E. specialize (IH (S i)).
      destruct (find_aux s [c] (S i)) as [j|].
      * destruct IH as [Hle Hno]. split; [lia|].
        replace (j - i)%nat with (S (j - S i)) by lia.
        cbn [take]. by apply not_elem_of_cons.
      * by apply not_elem_of_cons.
Qed.

Lemma find_nonneg (s sub : str) (start : Z) :
  find s sub start <> -1 -> 0 <= find s sub start.
Proof.
  unfold find. destruct (len s <? start); [done|].
  destruct (find_aux _ _ _); [lia|done].
Qed.

Lemma elem_of_window (x : ascii) (l : str) (m n p q : nat) :
  (m <= p)%nat -> (q <= m + n)%nat ->
  x ∈ take (q - p) (drop p l) -> x ∈ take n (drop m l).
Proof.
  intros Hp Hq Hin. apply elem_of_take in Hin as (i & Hi & Hlt).
  rewrite lookup_drop in Hi. apply elem_of_take.
  exists (p + i - m)%nat. rewrite lookup_drop.
  replace (m + (p + i - m))%nat with (p + i)%nat by lia.
  split; [done|lia].
Qed.

(** The text between [state:] and the next comma holds no comma. *)
Lemma state_value_no_comma (c : str) :
  let state_start := find c (lit "state:") 0 in
  let state_end := find c (lit ",") state_start in
  let state_end := if state_end =? -1 then len c else state_end in
  state_start <> -1 ->
  ","%char ∉ slice c (state_start + 6) state_end.
Proof.
  cbv zeta. set (a := find c (lit "state:") 0). intros Ha.
  apply find_nonneg in Ha. change (lit ",") with [","%char].
  unfold find at 1 2. unfold slice.
  assert (Hclamp : forall z, 0 <= z -> clamp c z = Z.to_nat (Z.min z (len c))).
  { intros z Hz. unfold clamp. by destruct (Z.ltb_spec z 0); [lia|]. }
  pose proof (len_nonneg c) as Hlen.
  destruct (Z.ltb_spec (len c) a) as [Hbig|Hsmall].
  - simpl. rewrite !Hclamp by lia.
    replace (Z.to_nat (Z.min (len c) (len c)) -
             Z.to_nat (Z.min (a + 6) (len c)))%nat with 0%nat by lia.
    simpl. apply not_elem_of_nil.
  - rewrite (Hclamp a) by lia.
    set (i := Z.to_nat (Z.min a (len c))).
    pose proof (find_aux_char_spec ","%char (drop i c) i) as Hspec.
    destruct (find_aux (drop i c) [","%char] i) as [j|].
    + destruct Hspec as [Hle Hno].
      destruct (Z.eqb_spec (Z.of_nat j) (-1)); [lia|].
      intros Hin. apply Hno.
      apply (elem_of_window _ _ _ _ (clamp c (a + 6)) (clamp c (Z.of_nat j)));
        [| |done].
      * rewrite Hclamp by lia. unfold i. lia.
      * rewrite Hclamp by lia. lia.
    + simpl. intros Hin. apply Hspec.
      rewrite <- (take_ge (drop i c) (length c)) by (rewrite length_drop; lia).
      apply (elem_of_window _ _ _ _ (clamp c (a + 6)) (clamp c (len c)));
        [| |done].
      * rewrite Hclamp by lia. unfold i. lia.
      * rewrite Hclamp by lia. unfold len. lia.
Qed.

Lemma scan_blocks_shape (X : str) (configs : list str) :
  (","%char ∉ scan_blocks X configs) /\
  strip (scan_blocks X configs) = scan_blocks X configs.
Proof.
  induction configs as [|c configs IH].
  - simpl. split; [|by vm_compute].
    vm_compute. intros H.
    repeat (apply elem_of_cons in H as [H|H]; [discriminate|]).
    by apply elem_of_nil in H.
  - cbn [scan_blocks]. destruct (str_in _ c); [|done].
    destruct (negb (find c (lit "state:") 0 =? -1)) eqn:E; [|done].
    apply negb_true_iff, Z.eqb_neq in E.
    split; [|apply strip_strip].
    intros H. apply elem_of_strip in H.
    by apply (state_value_no_comma c E).
Qed.

End StatusShape.

(** X17: a status is a clean token. Whatever the bridge answered and
    whatever name was asked for, the status [_get_vpn_status] returns
    contains no comma and has no white space at either end, so that a
    comparison with [CONNECTED] is never defeated by padding. *)
Theorem status_is_clean (result X : str) :
  (","%char ∉ parse_status result X) /\
  strip (parse_status result X) = parse_status result X.
Proof.
  unfold parse_status. destruct result as [|r0 result].
  - split; [|by vm_compute].
    vm_compute. intros H.
    repeat (apply elem_of_cons in H as [H|H]; [discriminate|]).
    by apply elem_of_nil in H.
  - apply scan_blocks_shape.
Qed.

(** ** The further statements on sample runs *)

Lemma answering_answers out : bridge_answers (answering out).
Proof. intros t e. discriminate. Defined.


Lemma sample_names_ok : Forall piece_ok sample_names /\ Forall bare sample_names.
Proof.
  split.
  - repeat constructor;
      try (intros H; vm_compute in H;
           repeat (apply elem_of_cons in H as [H|H]; [discriminate|]);
           by apply elem_of_nil in H).
  - repeat constructor; discriminate.
Defined.

Lemma get_vpn_configurations_pieces_witness :
  (_get_vpn_configurations failing_env (looping [] 0)).1 = Ok [] /\
  (_get_vpn_configurations (answering (lit "   ")) (looping [] 0)).1 = Ok [] /\
  (_get_vpn_configurations (answering (lit "work,  , home-vpn2"))
     (looping [] 0)).1 = Ok sample_names.
Proof.
  split; [|split].
  - apply (proj1 (get_vpn_configurations_pieces failing_env (looping [] 0)) []).
    reflexivity.
  - apply (proj1 (proj2 (get_vpn_configurations_pieces (answering (lit "   "))
                           (looping [] 0))) (lit "   ")); reflexivity.
  - apply (proj2 (proj2 (get_vpn_configurations_pieces
                           (answering (lit "work,  , home-vpn2"))
                           (looping [] 0)))
             (lit "work,  , home-vpn2") false
             [lit "work"; lit " "; lit "home-vpn2"]).
    + reflexivity.
    + reflexivity.
    + discriminate.
    + repeat constructor;
        try (intros H; vm_compute in H;
             repeat (apply elem_of_cons in H as [H|H]; [discriminate|]);
             by apply elem_of_nil in H).
Defined.

Lemma get_vpn_configurations_names_witness :
  (_get_vpn_configurations
     (answering (render_names true (map quoted sample_names)))
     (looping [] 0)).1 = Ok sample_names /\
  (_get_vpn_configurations (answering (lit "work, home-vpn2"))
     (looping [] 0)).1 = Ok sample_names.
Proof.
  split.
  - apply (get_vpn_configurations_names _ _
             (render_names true (map quoted sample_names))).
    + reflexivity.
    + discriminate.
    + apply sample_names_ok.
    + apply sample_names_ok.
    + left. by vm_compute.
  - apply (get_vpn_configurations_names _ _ (lit "work, home-vpn2")).
    + reflexivity.
    + discriminate.
    + apply sample_names_ok.
    + apply sample_names_ok.
    + right. split; [by vm_compute|]. repeat constructor.
Defined.

Lemma monitor_never_writes_keychain_witness :
  keyring (_get_stored_credentials sample_env (lit "vpn")
             (init_state [] ∅)).2 = ∅.
Proof.
  apply (proj2 (proj2 (monitor_never_writes_keychain sample_env sample_monitor
                         (init_state [] ∅)))
           5%nat (Ok tt)).
  by vm_compute.
Defined.

Lemma bridge_operations_frame_witness :
  running (looping [] 4) = true.
Proof.
  apply (proj2 (proj2 (proj2 (proj1 (bridge_operations_frame sample_env
                                       (lit "vpn") (lit "pw042018")
                                       (looping [] 4)))))).
  by vm_compute.
Defined.

Lemma reconnect_count_never_negative_witness :
  0 <= reconnect_count
         (cycle sample_env sample_monitor (lit "pw")
            (looping [lit "12345"; lit " 042018 "] 0)).2.
Proof.
  apply (proj1 (reconnect_count_never_negative sample_env sample_monitor
                  (lit "pw") (looping [lit "12345"; lit " 042018 "] 0)
                  ltac:(simpl; lia))).
Defined.

Lemma signal_stops_monitor_witness :
  exists st',
    forall fuel, (1 <= fuel)%nat ->
      monitor_loop signal_env sample_monitor (lit "pw") fuel
        (looping [lit "12345"; lit " 042018 "] 0) = Some (Ok tt, st').
Proof.
  apply (signal_stops_monitor signal_env sample_monitor (lit "pw")
           (looping [lit "12345"; lit " 042018 "] 0) 0).
  - simpl. lia.
  - reflexivity.
Defined.

Lemma store_credentials_isolated_witness :
  keyring (_store_credentials sample_env (lit "office") (lit "x")
             (with_prefix (lit "pw") [])).2 !! prefix_key (lit "vpn")
  = Some (lit "pw")
  /\ (_get_stored_credentials sample_env (lit "vpn")
        (_store_credentials sample_env (lit "vpn") (lit "second")
           (_store_credentials sample_env (lit "vpn") (lit "first")
              (init_state [] ∅)).2).2).1 = Ok (Some (lit "second")).
Proof.
  split.
  - rewrite (proj1 (store_credentials_isolated sample_env (lit "vpn")
                      (with_prefix (lit "pw") [])) (lit "office") (lit "x"))
      by discriminate.
    by vm_compute.
  - apply (proj2 (store_credentials_isolated sample_env (lit "vpn")
                    (init_state [] ∅)) (lit "first") (lit "second")
             (_store_credentials sample_env (lit "vpn") (lit "first")
                (init_state [] ∅)).2).
    + apply run_ok. by vm_compute.
    + apply run_ok. by vm_compute.
    + reflexivity.
Defined.

Lemma setup_credentials_stores_typed_witness :
  (exists st',
     setup_credentials sample_env sample_monitor (init_state [[]] ∅)
     = (Ok false, st') /\
     keyring st' = ∅ /\ trace st' = [EvInput]) /\
  (exists st',
     setup_credentials sample_env sample_monitor (init_state [lit " pw "] ∅)
     = (Ok true, st') /\
     keyring st' = <[prefix_key (lit "vpn") := lit " pw "]> ∅ /\
     (keyring_fault sample_env (calls st') = None ->
      (_get_stored_credentials sample_env (lit "vpn") st').1
      = Ok (Some (lit " pw ")))) /\
  (exists st',
     setup_credentials locked_env sample_monitor (init_state [lit "pw"] ∅)
     = (Raise (OtherException (lit "KeyringLocked")), st') /\
     keyring st' = ∅).
Proof.
  split; [|split].
  - apply (proj1 (setup_credentials_stores_typed sample_env sample_monitor
                    (init_state [[]] ∅) [] [] eq_refl) eq_refl).
  - apply (proj1 (proj2 (setup_credentials_stores_typed sample_env
                           sample_monitor (init_state [lit " pw "] ∅)
                           (lit " pw ") [] eq_refl))).
    + discriminate.
    + reflexivity.
  - apply (proj2 (proj2 (setup_credentials_stores_typed locked_env
                           sample_monitor (init_state [lit "pw"] ∅)
                           (lit "pw") [] eq_refl))).
    + discriminate.
    + reflexivity.
Defined.

Lemma list_configurations_queries_witness :
  exists st',
    list_configurations (answering (lit "work, home-vpn2")) (looping [] 0)
    = (Ok [(lit "work", lit "NOT_FOUND"); (lit "home-vpn2", lit "NOT_FOUND")],
       st') /\
    trace st' = [EvOsascript GetNames; poll; poll].
Proof.
  destruct (list_configurations_queries (answering (lit "work, home-vpn2"))
              (looping [] 0) (answering_answers _)) as (st' & Hrun & Htr).
  exists st'. split.
  - rewrite Hrun. by vm_compute.
  - rewrite Htr. by vm_compute.
Defined.

Lemma test_connection_password_witness :
  exists b st' rest,
    test_connection sample_env sample_monitor
      (with_prefix (lit "pw") [lit "12345"; lit " 042018 "; lit "later"])
    = (Ok b, st') /\
    trace st'
    = [EvKeyringGet (service_name (lit "vpn")) (lit "prefix");
       EvInput; EvInput;
       EvOsascript (Connect (lit "vpn")); EvSleep 2;
       EvOsascript (EnterPassword (lit "pw042018"))] ++ rest /\
    stdin st' = [lit "later"].
Proof.
  destruct (test_connection_password sample_env sample_monitor
              (with_prefix (lit "pw") [lit "12345"; lit " 042018 "; lit "later"])
              (lit "pw") [lit "12345"] (lit " 042018 ") [lit "later"]
              sample_bridge_answers)
    as (b & st' & rest & Hrun & Htr & Hin).
  - by vm_compute.
  - discriminate.
  - reflexivity.
  - reflexivity.
  - repeat constructor.
  - by vm_compute.
  - exists b, st', rest. split; [exact Hrun|]. split; [|exact Hin].
    rewrite Htr. by vm_compute.
Defined.

Lemma connect_vpn_guards_witness :
  connect_vpn sample_env (lit "vpn") (looping [lit "pw042018"] 9)
  = (Ok AlreadyConnected, after_call sample_env poll (looping [lit "pw042018"] 9))
  /\ (exists st',
        connect_vpn sample_env (lit "vpn") (looping [[]; lit "x"] 1)
        = (Ok EmptyPassword, st') /\ trace st' = [poll; EvInput])
  /\ (connect_vpn sample_env (lit "vpn") (looping [lit "pw042018"] 2)).1
     = Ok ConnectSucceeded
  /\ (connect_vpn sample_env (lit "vpn") (looping [] 1)).1 = Raise EOFError.
Proof.
  split; [|split; [|split]].
  - apply (proj1 (connect_vpn_guards sample_env (lit "vpn")
                    (looping [lit "pw042018"] 9) sample_bridge_answers)).
    by vm_compute.
  - apply (proj1 (proj2 (connect_vpn_guards sample_env (lit "vpn")
                           (looping [[]; lit "x"] 1) sample_bridge_answers))
             ltac:(by vm_compute) [lit "x"] eq_refl).
  - destruct (proj1 (proj2 (proj2 (connect_vpn_guards sample_env (lit "vpn")
                                     (looping [lit "pw042018"] 2)
                                     sample_bridge_answers)))
                ltac:(by vm_compute) (lit "pw042018") [] eq_refl
                ltac:(discriminate))
      as (r & st' & more & Hrun & _ & _ & Hiff).
    rewrite Hrun. simpl. f_equal. apply Hiff.
    exists 1%nat. split; [lia|]. split; [by vm_compute|].
    intros j Hj. assert (j = 0%nat) as -> by lia. by vm_compute.
  - apply (proj2 (proj2 (proj2 (connect_vpn_guards sample_env (lit "vpn")
                                  (looping [] 1) sample_bridge_answers)))).
    + by vm_compute.
    + reflexivity.
Defined.

Lemma disconnect_vpn_guards_witness :
  disconnect_vpn sample_env (lit "vpn") (looping [] 0)
  = (Ok AlreadyDisconnected, after_call sample_env poll (looping [] 0))
  /\ (disconnect_vpn sample_env (lit "vpn") (looping [] 9)).1
     = Ok DisconnectSucceeded.
Proof.
  split.
  - apply (proj1 (disconnect_vpn_guards sample_env (lit "vpn") (looping [] 0)
                    sample_bridge_answers)).
    by vm_compute.
  - destruct (proj2 (disconnect_vpn_guards sample_env (lit "vpn")
                       (looping [] 9) sample_bridge_answers)
                ltac:(by vm_compute))
      as (r & st' & more & Hrun & _ & _ & Hiff).
    rewrite Hrun. simpl. f_equal. apply Hiff.
    exists 1%nat. split; [lia|by vm_compute].
Defined.


(** Four cycles of a monitor whose interval is -1: the VPN is connected;
    the network is unreachable; the reconnect attempt succeeds; standard
    input is at its end when the token is asked for. Each ends with the
    five-second pause. *)
Lemma negative_interval_pauses_witness :
  (cycle sample_env hasty_monitor (lit "pw") (looping [] 9)
   = (Ok Continue,
      after_call sample_env (EvSleep 5)
        (cycle_work sample_env hasty_monitor (lit "pw") (looping [] 9)).2)
   /\ trace (cycle sample_env hasty_monitor (lit "pw") (looping [] 9)).2
      = [poll; EvSleep 5]) /\
  trace (cycle offline_env hasty_monitor (lit "pw") (looping [] 0)).2
  = [poll; EvPing; EvSleep 5] /\
  trace (cycle sample_env hasty_monitor (lit "pw")
           (looping [lit "12345"; lit " 042018 "] 0)).2
  = [poll; EvPing; EvInput; EvInput; EvOsascript (Connect (lit "vpn"));
     EvSleep 2; EvOsascript (EnterPassword (lit "pw042018"));
     poll; EvSleep 1; poll; EvSleep 5] /\
  trace (cycle sample_env hasty_monitor (lit "pw") (looping [] 0)).2
  = [poll; EvPing; EvInput; EvSleep 5].
Proof.
  split; [|split; [|split]].
  - destruct (negative_interval_pauses sample_env hasty_monitor (lit "pw")
                (looping [] 9)
                (cycle_work sample_env hasty_monitor (lit "pw")
                   (looping [] 9)).2 (Ok tt)) as [Hc _].
    + simpl. lia.
    + apply run_ok. by vm_compute.
    + discriminate.
    + intros _. by vm_compute.
    + split; [exact Hc|]. rewrite Hc. by vm_compute.
  - destruct (negative_interval_pauses offline_env hasty_monitor (lit "pw")
                (looping [] 0)
                (cycle_work offline_env hasty_monitor (lit "pw")
                   (looping [] 0)).2 (Ok tt)) as [Hc _].
    + simpl. lia.
    + apply run_ok. by vm_compute.
    + discriminate.
    + intros _. by vm_compute.
    + rewrite Hc. by vm_compute.
  - destruct (negative_interval_pauses sample_env hasty_monitor (lit "pw")
                (looping [lit "12345"; lit " 042018 "] 0)
                (cycle_work sample_env hasty_monitor (lit "pw")
                   (looping [lit "12345"; lit " 042018 "] 0)).2 (Ok tt))
      as [Hc _].
    + simpl. lia.
    + apply run_ok. by vm_compute.
    + discriminate.
    + intros _. by vm_compute.
    + rewrite Hc. by vm_compute.
  - destruct (negative_interval_pauses sample_env hasty_monitor (lit "pw")
                (looping [] 0)
                (cycle_work sample_env hasty_monitor (lit "pw")
                   (looping [] 0)).2 (Raise EOFError)) as [Hc _].
    + simpl. lia.
    + apply run_raise. by vm_compute.
    + discriminate.
    + discriminate.
    + rewrite Hc. by vm_compute.
Defined.
